(** * Verification of the Sudoku solver of [app.py]

    The development embeds [solve_sudoku_optimized] (with its two local
    functions [candidates] and [backtrack]) and proves the properties of
    the specification about it.

    Modelling choices, all taken from the source:
    - [board] is a 9x9 NumPy integer array.  It is a [list (list Z)];
      [board[i, j]] is [board_get board (i, j)] and [board[i, j] = v] is
      [board_set board (i, j) v].  Python raises [IndexError] out of range;
      every index the solver uses comes from [range(9)], so on a 9x9
      board ([is_9x9]) no access is out of range.
    - [empty_cells] is a Python list of pairs, mutated in place by
      [sort], [pop(0)] and [insert(0, _)], and shared by all the
      recursive calls of [backtrack]: it is threaded through the model
      together with the board.
    - [list.sort(key=...)] is a stable sort; a stable sort by a key is
      determined by its input, so a stable insertion sort stands for it.
    - [list(nums)] iterates a CPython [set] of [int]s between 1 and 9,
      which CPython stores by hash (the integer itself) in a table of at
      least 16 slots whenever it has two or more elements: the iteration
      is in increasing order.  The set is the duplicate-free increasing
      list of its elements.
    - recursion is bounded by a [fuel] argument; [None] means that no
      result was produced (fuel exhausted, or [pop(0)] on an empty
      list); neither happens on a 9x9 board.

    The development also embeds the other functions of the file:
    [is_valid], the parser [parse_sudoku_text] of the pasted text and
    the handler of the Solve button, with the properties that the code
    shows about them.  Their modelling choices are given with their
    definitions. *)

From Stdlib Require Import Ascii String.
From stdpp Require Import base tactics numbers list sorting.

Local Open Scope Z_scope.

(** ** Data model *)

Abbreviation Board := (list (list Z)).
Abbreviation Cell := (nat * nat)%type.

Definition is_9x9 (board : Board) : Prop :=
  length board = 9%nat ∧ Forall (λ r, length r = 9%nat) board.

Definition in_grid (pos : Cell) : Prop := (pos.1 < 9)%nat ∧ (pos.2 < 9)%nat.

(** [board[i, j]] *)
Definition board_get (board : Board) (pos : Cell) : Z :=
  (board !!! pos.1) !!! pos.2.

(** [board[i, j] = v] *)
Definition board_set (board : Board) (pos : Cell) (v : Z) : Board :=
  <[pos.1 := <[pos.2 := v]> (board !!! pos.1)]> board.

(** [board[row, :]] *)
Definition row_slice (board : Board) (row : nat) : list Z := board !!! row.

(** [board[:, col]] *)
Definition col_slice (board : Board) (col : nat) : list Z :=
  (λ r : list Z, r !!! col) <$> board.

(** [board[start_row:start_row+3, start_col:start_col+3].flatten()] *)
Definition block_slice (board : Board) (start_row start_col : nat) : list Z :=
  take 3 (drop start_row board) ≫= (λ r, take 3 (drop start_col r)).

(** [range(1, 10)] *)
Definition digits : list Z := [1; 2; 3; 4; 5; 6; 7; 8; 9].

(** ** The candidate engine: [candidates(row, col)] *)

Definition candidates (board : Board) (row col : nat) : list Z :=
  let nums := digits in
  let nums := list_difference nums (row_slice board row) in
  let nums := list_difference nums (col_slice board col) in
  let start_row := (3 * (row / 3))%nat in
  let start_col := (3 * (col / 3))%nat in
  let nums := list_difference nums (block_slice board start_row start_col) in
  nums.

(** ** The worklist *)

(** [[(i, j) for i in range(9) for j in range(9)]] *)
Definition all_cells : list Cell :=
  i ← seq 0 9; j ← seq 0 9; [(i, j)].

(** [[(i, j) for i in range(9) for j in range(9) if board[i, j] == 0]] *)
Definition empty_cells_of (board : Board) : list Cell :=
  filter (λ pos, board_get board pos = 0) all_cells.

(** Stable sort by a key, for [list.sort(key=...)]. *)
Fixpoint insert_by {A} (key : A → nat) (x : A) (l : list A) : list A :=
  match l with
  | [] => [x]
  | y :: l' =>
      if (key x <=? key y)%nat then x :: y :: l' else y :: insert_by key x l'
  end.

Definition sort_by {A} (key : A → nat) (l : list A) : list A :=
  foldr (insert_by key) [] l.

(** The key of the sort: the number of candidates of the cell [pos]. *)
Definition sort_key (board : Board) (pos : Cell) : nat :=
  length (candidates board pos.1 pos.2).

(** ** The search engine: [backtrack()] *)

(** Result of a call: the returned boolean and the two mutable objects
    as the call leaves them. *)
Abbreviation Result := (bool * Board * list Cell)%type.

(** The loop [for num in nums: ...] followed by the two statements after
    it; [rec] is the recursive call [backtrack()]. *)
Fixpoint try_candidates (rec : Board → list Cell → option Result)
    (pos : Cell) (nums : list Z) (board : Board) (empty_cells : list Cell)
    : option Result :=
  match nums with
  | [] => Some (false, board, pos :: empty_cells)
  | num :: nums' =>
      match rec (board_set board pos num) empty_cells with
      | None => None
      | Some (true, board', cells') => Some (true, board', cells')
      | Some (false, board', cells') =>
          try_candidates rec pos nums' (board_set board' pos 0) cells'
      end
  end.

Fixpoint backtrack (fuel : nat) (board : Board) (empty_cells : list Cell)
    : option Result :=
  match empty_cells with
  | [] => Some (true, board, [])
  | _ :: _ =>
      match fuel with
      | O => None
      | S fuel' =>
          match sort_by (sort_key board) empty_cells with
          | [] => None
          | pos :: rest =>
              try_candidates (backtrack fuel') pos
                (candidates board pos.1 pos.2) board rest
          end
      end
  end.

(** [solve_sudoku_optimized(board)]: the fuel is the number of empty
    cells, the bound of the recursion depth. *)
Definition solve_sudoku_optimized (board : Board) : option Result :=
  let empty_cells := empty_cells_of board in
  backtrack (length empty_cells) board empty_cells.

(** ** The search with its execution log

    The same code, also recording what it does: every step notes the
    recursion depth of the frame that performs it and the state of the
    two mutable objects just before it (for a return, the state the call
    leaves).  The log is ghost state; the result does not depend on it
    ([backtrack_log_erase]). *)

Inductive action : Type :=
  | Enter                                  (* [backtrack()] is entered *)
  | Select (pos : Cell) (rest : list Cell) (* [sort], then [pop(0)] *)
  | Assign (pos : Cell) (num : Z)          (* [board[row, col] = num] *)
  | Erase (pos : Cell)                     (* [board[row, col] = 0] *)
  | Reinsert (pos : Cell)                  (* [insert(0, (row, col))] *)
  | Return (ok : bool).                    (* [return True], [return False] *)

Record step : Type := Step {
  st_depth : nat;
  st_board : Board;
  st_cells : list Cell;
  st_action : action
}.

Abbreviation Logged := (Result * list step)%type.

Fixpoint try_candidates_log (rec : Board → list Cell → option Logged)
    (depth : nat) (pos : Cell) (nums : list Z)
    (board : Board) (empty_cells : list Cell) : option Logged :=
  match nums with
  | [] =>
      Some ((false, board, pos :: empty_cells),
            [Step depth board empty_cells (Reinsert pos);
             Step depth board (pos :: empty_cells) (Return false)])
  | num :: nums' =>
      let assign := Step depth board empty_cells (Assign pos num) in
      match rec (board_set board pos num) empty_cells with
      | None => None
      | Some ((true, board', cells'), log) =>
          Some ((true, board', cells'),
                assign :: log ++ [Step depth board' cells' (Return true)])
      | Some ((false, board', cells'), log) =>
          match try_candidates_log rec depth pos nums'
                  (board_set board' pos 0) cells' with
          | None => None
          | Some (r, log') =>
              Some (r, assign :: log
                         ++ Step depth board' cells' (Erase pos) :: log')
          end
      end
  end.

Fixpoint backtrack_log (fuel depth : nat) (board : Board)
    (empty_cells : list Cell) : option Logged :=
  match empty_cells with
  | [] =>
      Some ((true, board, []),
            [Step depth board [] Enter; Step depth board [] (Return true)])
  | _ :: _ =>
      match fuel with
      | O => None
      | S fuel' =>
          match sort_by (sort_key board) empty_cells with
          | [] => None
          | pos :: rest =>
              match try_candidates_log (backtrack_log fuel' (S depth)) depth
                      pos (candidates board pos.1 pos.2) board rest with
              | None => None
              | Some (r, log) =>
                  Some (r, Step depth board empty_cells Enter
                           :: Step depth board empty_cells (Select pos rest)
                           :: log)
              end
          end
      end
  end.

Definition solve_log (board : Board) : option Logged :=
  let empty_cells := empty_cells_of board in
  backtrack_log (length empty_cells) 0 board empty_cells.

(** A step without the state it was taken in. *)
Definition event (s : step) : nat * action := (st_depth s, st_action s).

(** ** Predicates of the specification *)

(** The worklist is exactly the set of the empty cells of the board. *)
Definition worklist_exact (board : Board) (cells : list Cell) : Prop :=
  NoDup cells ∧ ∀ pos, pos ∈ cells ↔ in_grid pos ∧ board_get board pos = 0.

(** Every row, every column and every block is a permutation of 1..9. *)
Definition solved (board : Board) : Prop :=
  (∀ r, (r < 9)%nat → row_slice board r ≡ₚ digits) ∧
  (∀ c, (c < 9)%nat → col_slice board c ≡ₚ digits) ∧
  (∀ br bc, (br < 3)%nat → (bc < 3)%nat →
     block_slice board (3 * br) (3 * bc) ≡ₚ digits).

(** The digits placed in a slice. *)
Definition placed (l : list Z) : list Z := filter (λ v, v ≠ 0) l.

(** No digit is placed twice in a row, a column or a block. *)
Definition conflict_free (board : Board) : Prop :=
  (∀ r, (r < 9)%nat → NoDup (placed (row_slice board r))) ∧
  (∀ c, (c < 9)%nat → NoDup (placed (col_slice board c))) ∧
  (∀ br bc, (br < 3)%nat → (bc < 3)%nat →
     NoDup (placed (block_slice board (3 * br) (3 * bc)))).

(** Every cell holds 0 or a digit. *)
Definition in_range (board : Board) : Prop :=
  ∀ pos, in_grid pos → 0 ≤ board_get board pos ≤ 9.

(** No cell is empty. *)
Definition full (board : Board) : Prop :=
  ∀ pos, in_grid pos → board_get board pos ≠ 0.

(** [pos] is the first entry of [cells] with the least key, and [rest]
    holds the other entries. *)
Definition first_min {A} (key : A → nat) (cells : list A) (pos : A)
    (rest : list A) : Prop :=
  ∃ l1 l2, cells = l1 ++ pos :: l2 ∧
    (∀ q, q ∈ l1 → (key pos < key q)%nat) ∧
    (∀ q, q ∈ l2 → (key pos ≤ key q)%nat) ∧
    rest ≡ₚ l1 ++ l2.

(** The cells of the 27 units, numbered from 0 to 8 in the order of the
    slices. *)
Definition row_cell (r k : nat) : Cell := (r, k).
Definition col_cell (c k : nat) : Cell := (k, c).
Definition block_cell (br bc k : nat) : Cell :=
  ((3 * br + k / 3)%nat, (3 * bc + k `mod` 3)%nat).

Definition unit_values (board : Board) (u : nat → Cell) : list Z :=
  (λ k, board_get board (u k)) <$> seq 0 9.

(** A unit has no conflict when two different cells of it never hold the
    same digit. *)
Definition unit_ok (board : Board) (u : nat → Cell) : Prop :=
  ∀ k k', (k < 9)%nat → (k' < 9)%nat →
    board_get board (u k) ≠ 0 →
    board_get board (u k) = board_get board (u k') → k = k'.

(** What a call of [backtrack] started on [board] and [cells] leaves. *)
Definition post (board : Board) (cells : list Cell) (r : Result) : Prop :=
  let '(ok, board', cells') := r in
  is_9x9 board' ∧
  if ok : bool then
    cells' = [] ∧
    full board' ∧
    (∀ q, q ∉ cells → board_get board' q = board_get board q) ∧
    (conflict_free board → conflict_free board') ∧
    (in_range board → in_range board')
  else board' = board ∧ cells' ≡ₚ cells.

(** The number of coordinates a frame is in charge of when it takes the
    step [s]: those of the worklist, and the one it has popped. *)
Definition frame_size (s : step) : nat :=
  match st_action s with
  | Enter | Select _ _ | Return _ => length (st_cells s)
  | Assign _ _ | Erase _ | Reinsert _ => S (length (st_cells s))
  end.

(** The digits given in [board0] are still in place in [board]. *)
Definition keeps_givens (board0 board : Board) : Prop :=
  ∀ pos, board_get board0 pos ≠ 0 →
    board_get board pos = board_get board0 pos.

(** The cell a step writes to, if it writes. *)
Definition written (s : step) : option Cell :=
  match st_action s with
  | Assign pos _ | Erase pos => Some pos
  | Enter | Select _ _ | Reinsert _ | Return _ => None
  end.

(** What holds at every step of a search that starts at depth 0 on
    [board0] with [n] empty cells. *)
Definition step_ok (n : nat) (board0 : Board) (s : step) : Prop :=
  is_9x9 (st_board s) ∧
  ((st_depth s ≤ n)%nat ∧
   (st_action s ≠ Return true → st_depth s + frame_size s = n)%nat) ∧
  keeps_givens board0 (st_board s) ∧
  (∀ pos, written s = Some pos → board_get board0 pos = 0) ∧
  match st_action s with
  | Enter => worklist_exact (st_board s) (st_cells s)
  | Select pos rest =>
      sort_by (sort_key (st_board s)) (st_cells s) = pos :: rest ∧
      first_min (sort_key (st_board s)) (st_cells s) pos rest
  | Assign pos num =>
      in_grid pos ∧ board_get (st_board s) pos = 0 ∧
      num ∈ candidates (st_board s) pos.1 pos.2
  | Erase pos => in_grid pos ∧ board_get (st_board s) pos ≠ 0
  | Reinsert pos => in_grid pos ∧ board_get (st_board s) pos = 0
  | Return true => full (st_board s) ∧ st_cells s = []
  | Return false => True
  end.

Ltac step_ok_split := unfold step_ok, frame_size; simpl; split_and!.




(** Replaces a 9x9 board by its 81 entries. *)
Ltac explode_list l :=
  do 9 (destruct l as [|? l]; [done|]); destruct l; [|done].

Ltac explode_board H9 :=
  let Hlen := fresh "Hlen" in
  let Hrows := fresh "Hrows" in
  destruct H9 as [Hlen Hrows];
  match type of Hlen with length ?b = _ => explode_list b end;
  repeat match goal with
    | H : Forall _ (_ :: _) |- _ => apply Forall_cons_1 in H as [? H]
    end;
  clear Hlen Hrows;
  repeat match goal with
    | H : length ?r = 9%nat |- _ => explode_list r
    end.

(** ** Boards used as examples *)

Definition test_board : Board :=
  [[5;3;0;0;7;0;0;0;0];
   [6;0;0;1;9;5;0;0;0];
   [0;9;8;0;0;0;0;6;0];
   [8;0;0;0;6;0;0;0;3];
   [4;0;0;8;0;3;0;0;1];
   [7;0;0;0;2;0;0;0;6];
   [0;6;0;0;0;0;2;8;0];
   [0;0;0;4;1;9;0;0;5];
   [0;0;0;0;8;0;0;7;9]].

Definition zero_board : Board := replicate 9 (replicate 9 0).

(** A full grid that breaks every uniqueness rule. *)
Definition ones_board : Board := replicate 9 (replicate 9 1).

(** The solution of [test_board]. *)
Definition solved_board : Board :=
  [[5;3;4;6;7;8;9;1;2];
   [6;7;2;1;9;5;3;4;8];
   [1;9;8;3;4;2;5;6;7];
   [8;5;9;7;6;1;4;2;3];
   [4;2;6;8;5;3;7;9;1];
   [7;1;3;9;2;4;8;5;6];
   [9;6;1;5;3;7;2;8;4];
   [2;8;7;4;1;9;6;3;5];
   [3;4;5;2;8;6;1;7;9]].

(** [solved_board] with its first cell replaced by 12. *)
Definition twelve_board : Board :=
  [[12;3;4;6;7;8;9;1;2];
   [6;7;2;1;9;5;3;4;8];
   [1;9;8;3;4;2;5;6;7];
   [8;5;9;7;6;1;4;2;3];
   [4;2;6;8;5;3;7;9;1];
   [7;1;3;9;2;4;8;5;6];
   [9;6;1;5;3;7;2;8;4];
   [2;8;7;4;1;9;6;3;5];
   [3;4;5;2;8;6;1;7;9]].

(** [solved_board] with three cells emptied. *)
Definition near_board : Board :=
  [[5;3;4;6;7;8;9;1;2];
   [6;0;2;1;9;5;3;4;8];
   [1;9;8;3;4;2;5;6;7];
   [8;5;9;7;6;1;4;2;3];
   [4;2;6;8;0;3;7;9;1];
   [7;1;3;9;2;4;8;5;6];
   [9;6;1;5;3;7;2;8;4];
   [2;8;7;4;1;9;6;3;0];
   [3;4;5;2;8;6;1;7;9]].

(** A puzzle without solution: the last cell of the first row needs a 9,
    and the column of that cell already holds one. *)
Definition dead_board : Board :=
  [[1;2;3;4;5;6;7;8;0];
   [0;0;0;0;0;0;0;0;9];
   [0;0;0;0;0;0;0;0;0];
   [0;0;0;0;0;0;0;0;0];
   [0;0;0;0;0;0;0;0;0];
   [0;0;0;0;0;0;0;0;0];
   [0;0;0;0;0;0;0;0;0];
   [0;0;0;0;0;0;0;0;0];
   [0;0;0;0;0;0;0;0;0]].


(** * The other functions of [app.py] *)

(** ** [is_valid(board, row, col, num)] *)

Definition is_valid (board : Board) (row col : nat) (num : Z) : bool :=
  if bool_decide (num ∈ row_slice board row) then false
  else if bool_decide (num ∈ col_slice board col) then false
  else
    let start_row := (3 * (row / 3))%nat in
    let start_col := (3 * (col / 3))%nat in
    if bool_decide (num ∈ block_slice board start_row start_col) then false
    else true.

(** Two cells share a row, a column or a block. *)
Definition same_unit (p q : Cell) : Prop :=
  p.1 = q.1 ∨ p.2 = q.2 ∨ ((p.1 / 3)%nat = (q.1 / 3)%nat ∧ (p.2 / 3)%nat = (q.2 / 3)%nat).

(** [sol] is a solution of the puzzle [board]. *)
Definition solution_of (board sol : Board) : Prop :=
  is_9x9 sol ∧ solved sol ∧ keeps_givens board sol.

(** The handler of the Solve button: the solver runs on a copy of the
    session grid, which replaces it when the solver returns [True].
    The result is the session grid after the handler and the message
    shown ([true] for [st.success], [false] for [st.error]). *)
Definition solve_button (board : Board) : option (Board * bool) :=
  match solve_sudoku_optimized board with
  | None => None
  | Some (true, board_copy, _) => Some (board_copy, true)
  | Some (false, _, _) => Some (board, false)
  end.

(** ** The text parser: [parse_sudoku_text(pasted_text)]

    A Python [str] is a sequence of code points; the model takes the
    texts over the code points 0 to 255 and writes them [list ascii].
    On these code points the line boundaries of [str.splitlines], the
    white space of [str.strip] and the digits of [\d] are the ones
    listed below.  The conversion of the grid by [np.array(grid,
    dtype=int)] is the identity as long as the numbers fit the integer
    type of the array: the properties of the parser are stated for
    texts without ten digits in a row, whose numbers are below 10^9. *)

Abbreviation str := (list ascii).

Definition TAB : ascii := ascii_of_nat 9.
Definition LF : ascii := ascii_of_nat 10.
Definition CR : ascii := ascii_of_nat 13.
Definition SPACE : ascii := ascii_of_nat 32.

(** The line boundaries of [str.splitlines()]. *)
Definition is_linebreak (c : ascii) : bool :=
  bool_decide (nat_of_ascii c ∈ [10; 11; 12; 13; 28; 29; 30; 133]%nat).

(** [c.isspace()], the characters removed by [str.strip()]. *)
Definition is_space (c : ascii) : bool :=
  bool_decide
    (nat_of_ascii c ∈ [9; 10; 11; 12; 13; 28; 29; 30; 31; 32; 133; 160]%nat).

(** The characters matched by [[0-9]] and by [\d]. *)
Definition is_digit (c : ascii) : bool :=
  (48 <=? nat_of_ascii c)%nat && (nat_of_ascii c <=? 57)%nat.

Fixpoint take_while {A} (f : A → bool) (l : list A) : list A :=
  match l with
  | [] => []
  | x :: l' => if f x then x :: take_while f l' else []
  end.

Fixpoint drop_while {A} (f : A → bool) (l : list A) : list A :=
  match l with
  | [] => []
  | x :: l' => if f x then drop_while f l' else l
  end.

(** [s.lstrip()], [s.rstrip()], [s.strip()] *)
Definition lstrip (s : str) : str := drop_while is_space s.
Definition rstrip (s : str) : str := reverse (drop_while is_space (reverse s)).
Definition strip (s : str) : str := rstrip (lstrip s).

(** [s.rstrip(chars)] *)
Definition rstrip_chars (chars : list ascii) (s : str) : str :=
  reverse (drop_while (λ c, existsb (Ascii.eqb c) chars) (reverse s)).

(** [s.splitlines()]; [cur] is the line being read. *)
Fixpoint splitlines_from (cur : str) (s : str) : list str :=
  match s with
  | [] => match cur with [] => [] | _ :: _ => [cur] end
  | c :: s' =>
      if is_linebreak c then
        cur :: match s' with
               | c' :: s'' =>
                   if Ascii.eqb c CR && Ascii.eqb c' LF
                   then splitlines_from [] s''
                   else splitlines_from [] s'
               | [] => splitlines_from [] s'
               end
      else splitlines_from (cur ++ [c]) s'
  end.

Definition splitlines (s : str) : list str := splitlines_from [] s.

(** [s.split(sep)] and [re.split(sep, s)] for a separator of one
    character; [cur] is the piece being read. *)
Fixpoint split_from (sep : ascii) (cur : str) (s : str) : list str :=
  match s with
  | [] => [cur]
  | c :: s' =>
      if Ascii.eqb c sep then cur :: split_from sep [] s'
      else split_from sep (cur ++ [c]) s'
  end.

Definition split (sep : ascii) (s : str) : list str := split_from sep [] s.

(** [re.fullmatch(r"[0-9]{9}", s)] *)
Definition is_compact (s : str) : bool :=
  (length s =? 9)%nat && forallb is_digit s.

(** [int(s)] for a string of digits. *)
Definition digit_value (c : ascii) : Z := Z.of_nat (nat_of_ascii c) - 48.

Definition int_of_digits (s : str) : Z :=
  foldl (λ acc c, 10 * acc + digit_value c) 0 s.

(** [re.search(r"\d+", s)]: the first longest run of digits, [None]
    when [s] has no digit. *)
Definition search_digits (s : str) : option str :=
  match drop_while (λ c, negb (is_digit c)) s with
  | [] => None
  | c :: s' => Some (take_while is_digit (c :: s'))
  end.

(** The body of the loop over [subparts]: the number appended to [row]
    for the piece [sp]. *)
Definition parse_piece (sp : str) : Z :=
  let sp := strip sp in
  match sp with
  | [] => 0
  | _ :: _ =>
      match search_digits sp with
      | Some ds => int_of_digits ds   (* [int(re.search(...).group())] *)
      | None => 0                     (* [except: row.append(0)] *)
      end
  end.

(** The padding of [row] to 9 columns and its truncation. *)
Definition pad_row (row : list Z) : list Z :=
  take 9 (row ++ replicate (9 - length row) 0).

(** The body of the loop over [lines], for a line that is not blank:
    the row appended to [grid]. *)
Definition parse_row (r : str) : list Z :=
  let r := rstrip_chars [CR; LF] r in
  if is_compact (strip r) then (λ c, int_of_digits [c]) <$> strip r
  else pad_row (split TAB r ≫= (λ part, parse_piece <$> split SPACE part)).

(** The loop over [lines], which skips the blank lines. *)
Definition parse_rows (lines : list str) : list (list Z) :=
  parse_row <$> filter (λ r, strip r ≠ []) lines.

(** The padding of [grid] to 9 rows and its truncation. *)
Definition pad_grid (grid : list (list Z)) : Board :=
  take 9 (grid ++ replicate (9 - length grid) (replicate 9 0)).

Definition parse_sudoku_text (pasted_text : str) : option Board :=
  match pasted_text with
  | [] => None
  | _ :: _ => Some (pad_grid (parse_rows (splitlines pasted_text)))
  end.

(** The length of the longest run of digits of a text. *)
Fixpoint longest_run (cur best : nat) (s : str) : nat :=
  match s with
  | [] => Nat.max cur best
  | c :: s' =>
      if is_digit c then longest_run (S cur) best s'
      else longest_run 0 (Nat.max cur best) s'
  end.

Definition longest_digit_run (s : str) : nat := longest_run 0 0 s.

(** [s] occurs in [t] as a block of consecutive characters. *)
Definition is_infix {A} (s t : list A) : Prop := ∃ l1 l2, t = l1 ++ s ++ l2.

(** [sep.join(pieces)] *)
Fixpoint join (sep : str) (pieces : list str) : str :=
  match pieces with
  | [] => []
  | p :: ps =>
      match ps with
      | [] => p
      | _ :: _ => p ++ sep ++ join sep ps
      end
  end.

(** The character of a digit, [str(v)] for [v] from 0 to 9. *)
Definition digit_char (v : Z) : ascii := ascii_of_nat (48 + Z.to_nat v).

(** A row written as 9 digits. *)
Definition compact_line (row : list Z) : str := digit_char <$> row.

(** A row written cell by cell, the cells separated by [sep]; an empty
    cell is written [0], or left blank when [blank] is set. *)
Definition cell_text (blank : bool) (v : Z) : str :=
  if blank && (v =? 0) then [] else [digit_char v].

Definition delimited_line (sep : ascii) (blank : bool) (row : list Z) : str :=
  join [sep] (cell_text blank <$> row).

(** The text of a grid: its lines joined by the line ending [eol],
    with or without a line ending after the last line. *)
Definition grid_text (eol : str) (final : bool) (lines : list str) : str :=
  join eol lines ++ (if final then eol else []).

(** A row with no digit placed. *)
Definition blank_row (row : list Z) : Prop := Forall (λ v, v = 0) row.

(** A pasted text, with a compact row, a row separated by spaces, a
    blank line and a row separated by tabs, and the grid read from
    it. *)
Definition pasted_example : str :=
  list_ascii_of_string "530070000" ++ [LF] ++
  list_ascii_of_string "6 0 0 1 9 5" ++ [LF; LF] ++
  [TAB] ++ list_ascii_of_string "9" ++ [TAB] ++ list_ascii_of_string "8x" ++
  [TAB; TAB] ++ list_ascii_of_string "-12 a3b4".

Definition parsed_example : Board :=
  [[5;3;0;0;7;0;0;0;0];
   [6;0;0;1;9;5;0;0;0];
   [0;9;8;0;12;3;0;0;0];
   [0;0;0;0;0;0;0;0;0];
   [0;0;0;0;0;0;0;0;0];
   [0;0;0;0;0;0;0;0;0];
   [0;0;0;0;0;0;0;0;0];
   [0;0;0;0;0;0;0;0;0];
   [0;0;0;0;0;0;0;0;0]].


(** ** Cells of a 9x9 board *)

Lemma row_length board r :
  is_9x9 board → (r < 9)%nat → length (board !!! r) = 9%nat.
Proof.
  intros [Hlen Hrows] Hr.
  rewrite Forall_lookup in Hrows. apply (Hrows r).
  apply list_lookup_lookup_total_lt. lia.
Qed.

Lemma set_is_9x9 board pos v : is_9x9 board → is_9x9 (board_set board pos v).
Proof.
  intros H9. destruct (decide (pos.1 < 9)%nat) as [Hlt|Hge].
  - pose proof (row_length _ _ H9 Hlt) as Hr. destruct H9 as [Hlen Hrows].
    split; unfold board_set; [by rewrite length_insert|].
    apply Forall_insert; [done|]. by rewrite length_insert.
  - unfold board_set. rewrite list_insert_ge; [done|]. destruct H9. lia.
Qed.

Lemma get_set_eq board pos v :
  is_9x9 board → in_grid pos → board_get (board_set board pos v) pos = v.
Proof.
  intros H9 [Hr Hc]. pose proof (row_length _ _ H9 Hr) as Hlen.
  unfold board_get, board_set.
  rewrite list_lookup_total_insert_eq by (destruct H9; lia).
  apply list_lookup_total_insert_eq. lia.
Qed.

Lemma get_set_ne board pos q v :
  pos ≠ q → board_get (board_set board pos v) q = board_get board q.
Proof.
  intros Hne. unfold board_get, board_set.
  destruct (decide (pos.1 = q.1)) as [Heq|Hrow].
  - destruct (decide (pos.1 < length board)%nat) as [Hlt|Hge].
    + rewrite <- Heq, list_lookup_total_insert_eq by done.
      apply list_lookup_total_insert_ne.
      intros Hcol. apply Hne. destruct pos, q; simpl in *; congruence.
    + rewrite list_insert_ge by lia. done.
  - by rewrite list_lookup_total_insert_ne.
Qed.

Lemma set_set board pos v v' :
  is_9x9 board → in_grid pos →
  board_set (board_set board pos v) pos v' = board_set board pos v'.
Proof.
  intros [Hlen _] [Hr _]. unfold board_set.
  rewrite list_lookup_total_insert_eq by lia.
  by rewrite !list_insert_insert_eq.
Qed.

Lemma set_get_id board pos :
  is_9x9 board → in_grid pos →
  board_set board pos (board_get board pos) = board.
Proof.
  intros H9 [Hr Hc]. pose proof (row_length _ _ H9 Hr) as Hlen.
  destruct H9 as [Hb _]. unfold board_set, board_get.
  apply list_insert_id.
  rewrite (list_insert_id (board !!! pos.1)).
  - apply list_lookup_lookup_total_lt. lia.
  - apply list_lookup_lookup_total_lt. lia.
Qed.

(** Assigning [v] to an empty cell and resetting it gives the board back. *)
Lemma set_reset board pos v :
  is_9x9 board → in_grid pos → board_get board pos = 0 →
  board_set (board_set board pos v) pos 0 = board.
Proof.
  intros H9 Hin H0. rewrite set_set by done.
  rewrite <- H0. by apply set_get_id.
Qed.

(** ** The stable sort and the selection *)

Lemma insert_by_perm {A} (key : A → nat) x l : insert_by key x l ≡ₚ x :: l.
Proof.
  induction l as [|y l IH]; simpl; [done|].
  destruct (key x <=? key y)%nat; [done|].
  rewrite IH. apply Permutation_swap.
Qed.

Lemma sort_by_perm {A} (key : A → nat) l : sort_by key l ≡ₚ l.
Proof.
  induction l as [|x l IH]; simpl; [done|].
  by rewrite insert_by_perm, IH.
Qed.

Lemma sort_by_first_min {A} (key : A → nat) l pos rest :
  sort_by key l = pos :: rest → first_min key l pos rest.
Proof.
  revert pos rest. induction l as [|x l IH]; intros pos rest; simpl; [done|].
  pose proof (sort_by_perm key l) as Hperm.
  destruct (sort_by key l) as [|y ys]; simpl.
  - intros [= <- <-]. apply Permutation_nil_l in Hperm as <-.
    exists [], []. split_and!; try done; by intros q ?%elem_of_nil.
  - destruct (IH y ys eq_refl) as (l1 & l2 & -> & Hlt & Hle & Hrest).
    destruct (key x <=? key y)%nat eqn:Hxy; intros [= <- <-].
    + apply Nat.leb_le in Hxy.
      exists [], (l1 ++ y :: l2). split_and!; [done| |..].
      * by intros q ?%elem_of_nil.
      * intros q [Hq|[->|Hq]%elem_of_cons]%elem_of_app.
        -- specialize (Hlt q Hq). lia.
        -- done.
        -- specialize (Hle q Hq). lia.
      * done.
    + apply Nat.leb_gt in Hxy.
      exists (x :: l1), l2. split_and!; [done| |done|].
      * intros q [->|Hq]%elem_of_cons; [done|auto].
      * rewrite insert_by_perm, Hrest. done.
Qed.

(** ** The candidate engine *)

Lemma digits_spec x : x ∈ digits ↔ 1 ≤ x ≤ 9.
Proof.
  unfold digits. rewrite !elem_of_cons, elem_of_nil. lia.
Qed.

Lemma elem_of_candidates board row col x :
  x ∈ candidates board row col ↔
    1 ≤ x ≤ 9 ∧ (x ∉ row_slice board row) ∧ (x ∉ col_slice board col) ∧
    (x ∉ block_slice board (3 * (row / 3)) (3 * (col / 3))).
Proof.
  unfold candidates. rewrite !list_elem_of_difference, digits_spec. tauto.
Qed.




Lemma candidates_NoDup board row col : NoDup (candidates board row col).
Proof.
  unfold candidates. do 3 apply NoDup_list_difference.
  apply (bool_decide_unpack _). by vm_compute.
Qed.

(** ** The initial worklist *)

Lemma elem_of_all_cells pos : pos ∈ all_cells ↔ in_grid pos.
Proof.
  unfold all_cells, in_grid. split.
  - intros (i & (j & ->%list_elem_of_singleton & Hj)%list_elem_of_bind
              & Hi)%list_elem_of_bind.
    apply elem_of_seq in Hi, Hj. simpl. lia.
  - intros [Hr Hc]. apply list_elem_of_bind. exists pos.1. split.
    + apply list_elem_of_bind. exists pos.2. split.
      * destruct pos. apply list_elem_of_singleton. done.
      * apply elem_of_seq. lia.
    + apply elem_of_seq. lia.
Qed.

Lemma all_cells_NoDup : NoDup all_cells.
Proof. apply (bool_decide_unpack _). by vm_compute. Qed.

Lemma empty_cells_of_exact board : worklist_exact board (empty_cells_of board).
Proof.
  split.
  - apply NoDup_filter, all_cells_NoDup.
  - intros pos. unfold empty_cells_of.
    rewrite list_elem_of_filter, elem_of_all_cells. tauto.
Qed.

Lemma empty_cells_of_length board : (length (empty_cells_of board) ≤ 81)%nat.
Proof. apply (length_filter _ all_cells). Qed.

(** ** Rows, columns and blocks of a 9x9 board *)

Lemma row_slice_cells board r :
  is_9x9 board → (r < 9)%nat →
  row_slice board r = unit_values board (row_cell r).
Proof.
  intros H9 Hr. explode_board H9.
  do 9 (destruct r as [|r]; [reflexivity|]). lia.
Qed.

Lemma col_slice_cells board c :
  is_9x9 board → (c < 9)%nat →
  col_slice board c = unit_values board (col_cell c).
Proof.
  intros H9 Hc. explode_board H9.
  do 9 (destruct c as [|c]; [reflexivity|]). lia.
Qed.

Lemma block_slice_cells board br bc :
  is_9x9 board → (br < 3)%nat → (bc < 3)%nat →
  block_slice board (3 * br) (3 * bc) = unit_values board (block_cell br bc).
Proof.
  intros H9 Hr Hc. explode_board H9.
  do 3 (destruct br as [|br];
        [do 3 (destruct bc as [|bc]; [reflexivity|]); lia|]).
  lia.
Qed.

Lemma elem_of_unit_values board u x :
  x ∈ unit_values board u ↔ ∃ k, (k < 9)%nat ∧ board_get board (u k) = x.
Proof.
  unfold unit_values. rewrite list_elem_of_fmap. split.
  - intros (k & -> & Hk%elem_of_seq). exists k. split; [lia|done].
  - intros (k & Hk & <-). exists k. split; [done|]. apply elem_of_seq. lia.
Qed.

Lemma NoDup_placed_fmap (f : nat → Z) (l : list nat) :
  NoDup l →
  NoDup (placed (f <$> l)) ↔
    ∀ k k', k ∈ l → k' ∈ l → f k ≠ 0 → f k = f k' → k = k'.
Proof.
  unfold placed. induction 1 as [|a l Ha Hl IH]; simpl.
  - split; [by intros _ k k' ?%elem_of_nil|constructor].
  - rewrite filter_cons. case_decide as Hfa.
    + rewrite NoDup_cons, IH, list_elem_of_filter, list_elem_of_fmap. split.
      * intros [Hnin Hrec] k k' [->|Hk]%elem_of_cons [->|Hk']%elem_of_cons
          Hnz Heq; auto.
        -- destruct Hnin. eauto.
        -- destruct Hnin. eauto.
      * intros H. split.
        -- intros [_ (k' & Heq & Hk')].
           assert (a = k') as -> by (apply H; rewrite ?elem_of_cons; auto).
           done.
        -- intros k k' Hk Hk'. apply H; rewrite elem_of_cons; auto.
    + rewrite IH. split.
      * intros Hrec k k' [->|Hk]%elem_of_cons [->|Hk']%elem_of_cons
          Hnz Heq; auto.
        -- done.
        -- rewrite Heq in Hnz. done.
      * intros H k k' Hk Hk'. apply H; rewrite elem_of_cons; auto.
Qed.

Lemma unit_values_NoDup board u :
  NoDup (placed (unit_values board u)) ↔ unit_ok board u.
Proof.
  unfold unit_values, unit_ok.
  rewrite (NoDup_placed_fmap (λ k, board_get board (u k))) by apply NoDup_seq.
  split; intros H k k' Hk Hk'; apply H; revert Hk Hk';
    rewrite !elem_of_seq; lia.
Qed.

Lemma block_cell_inj br bc k k' :
  (k < 9)%nat → (k' < 9)%nat → block_cell br bc k = block_cell br bc k' →
  k = k'.
Proof.
  intros Hk Hk' Heq.
  pose proof (f_equal fst Heq) as Hd. pose proof (f_equal snd Heq) as Hm.
  unfold block_cell in Hd, Hm. cbn [fst snd] in Hd, Hm.
  pose proof (Nat.div_mod_eq k 3). pose proof (Nat.div_mod_eq k' 3). lia.
Qed.

Lemma block_cell_origin br bc k pos :
  (k < 9)%nat → block_cell br bc k = pos →
  (3 * (pos.1 / 3) = 3 * br ∧ 3 * (pos.2 / 3) = 3 * bc)%nat.
Proof.
  intros Hk <-. unfold block_cell. cbn [fst snd].
  assert (k / 3 < 3)%nat by (apply Nat.Div0.div_lt_upper_bound; lia).
  assert (k `mod` 3 < 3)%nat by (apply Nat.mod_upper_bound; lia).
  rewrite !(Nat.mul_comm 3 br), !(Nat.mul_comm 3 bc).
  rewrite !Nat.div_add_l, !Nat.div_small by lia. lia.
Qed.

Lemma block_cell_in_grid br bc k :
  (br < 3)%nat → (bc < 3)%nat → (k < 9)%nat → in_grid (block_cell br bc k).
Proof.
  intros Hr Hc Hk. unfold in_grid, block_cell. cbn [fst snd].
  assert (k / 3 < 3)%nat by (apply Nat.Div0.div_lt_upper_bound; lia).
  assert (k `mod` 3 < 3)%nat by (apply Nat.mod_upper_bound; lia).
  lia.
Qed.

(** The units of the specification and the units by cells agree. *)
Lemma conflict_free_units board :
  is_9x9 board →
  conflict_free board ↔
    (∀ r, (r < 9)%nat → unit_ok board (row_cell r)) ∧
    (∀ c, (c < 9)%nat → unit_ok board (col_cell c)) ∧
    (∀ br bc, (br < 3)%nat → (bc < 3)%nat → unit_ok board (block_cell br bc)).
Proof.
  intros H9. unfold conflict_free. split.
  - intros (Hr & Hc & Hb). split_and!.
    + intros r Hlt. apply unit_values_NoDup.
      rewrite <- row_slice_cells by done. auto.
    + intros c Hlt. apply unit_values_NoDup.
      rewrite <- col_slice_cells by done. auto.
    + intros br bc Hlt1 Hlt2. apply unit_values_NoDup.
      rewrite <- block_slice_cells by done. auto.
  - intros (Hr & Hc & Hb). split_and!.
    + intros r Hlt. rewrite row_slice_cells by done.
      apply unit_values_NoDup. auto.
    + intros c Hlt. rewrite col_slice_cells by done.
      apply unit_values_NoDup. auto.
    + intros br bc Hlt1 Hlt2. rewrite block_slice_cells by done.
      apply unit_values_NoDup. auto.
Qed.

(** ** One assignment *)

Lemma unit_ok_set board u pos num :
  (∀ k k', (k < 9)%nat → (k' < 9)%nat → u k = u k' → k = k') →
  is_9x9 board → in_grid pos →
  (∀ k, (k < 9)%nat → u k = pos → num ∉ unit_values board u) →
  unit_ok board u → unit_ok (board_set board pos num) u.
Proof.
  intros Hinj H9 Hpos Hnum Hok k k' Hk Hk' Hnz Heq.
  destruct (decide (u k = pos)) as [Ek|Nk],
           (decide (u k' = pos)) as [Ek'|Nk'].
  - apply Hinj; congruence.
  - rewrite Ek, get_set_eq, get_set_ne in Heq by done.
    destruct (Hnum k Hk Ek). apply elem_of_unit_values. eauto.
  - rewrite Ek', get_set_eq, get_set_ne in Heq by done.
    destruct (Hnum k' Hk' Ek'). apply elem_of_unit_values. eauto.
  - rewrite get_set_ne in Hnz by done. rewrite !get_set_ne in Heq by done.
    by apply Hok.
Qed.

(** Assigning a candidate of a cell to it creates no conflict. *)
Lemma conflict_free_set board pos num :
  is_9x9 board → in_grid pos → num ∈ candidates board pos.1 pos.2 →
  conflict_free board → conflict_free (board_set board pos num).
Proof.
  intros H9 Hpos (_ & Hrow & Hcol & Hblk)%elem_of_candidates.
  rewrite !conflict_free_units by auto using set_is_9x9.
  intros (Hr & Hc & Hb). split_and!.
  - intros r Hlt. apply unit_ok_set; auto.
    + by intros k k' _ _ [= ->].
    + intros k _ <-. by rewrite <- row_slice_cells.
  - intros c Hlt. apply unit_ok_set; auto.
    + by intros k k' _ _ [= ->].
    + intros k _ <-. by rewrite <- col_slice_cells.
  - intros br bc Hlt1 Hlt2. apply unit_ok_set; auto.
    + apply block_cell_inj.
    + intros k Hk [E1 E2]%block_cell_origin; [|done].
      rewrite <- block_slice_cells, <- E1, <- E2 by done. done.
Qed.

Lemma in_range_set board pos v :
  is_9x9 board → in_grid pos → 0 ≤ v ≤ 9 →
  in_range board → in_range (board_set board pos v).
Proof.
  intros H9 Hpos Hv Hr q Hq. destruct (decide (pos = q)) as [<-|Hne].
  - by rewrite get_set_eq.
  - rewrite get_set_ne by done. auto.
Qed.

(** ** A full board without conflict is solved *)

Lemma unit_values_perm board u :
  (∀ k, (k < 9)%nat → in_grid (u k)) →
  in_range board → full board →
  unit_ok board u → unit_values board u ≡ₚ digits.
Proof.
  intros Hu Hrange Hfull Hok.
  apply submseteq_length_Permutation; [|done].
  apply NoDup_submseteq.
  - apply NoDup_fmap_2_strong; [|apply NoDup_seq].
    intros k k' Hk%elem_of_seq Hk'%elem_of_seq Heq.
    apply Hok; [lia|lia| |done]. apply Hfull, Hu. lia.
  - intros x (k & Hk & <-)%elem_of_unit_values. apply digits_spec.
    specialize (Hrange _ (Hu k Hk)). specialize (Hfull _ (Hu k Hk)). lia.
Qed.

Lemma full_conflict_free_solved board :
  is_9x9 board → in_range board → full board →
  conflict_free board → solved board.
Proof.
  intros H9 Hrange Hfull (Hr & Hc & Hb)%conflict_free_units; [|done].
  split_and!.
  - intros r Hlt. rewrite row_slice_cells by done.
    apply unit_values_perm; auto.
    intros k Hk. split; simpl; lia.
  - intros c Hlt. rewrite col_slice_cells by done.
    apply unit_values_perm; auto.
    intros k Hk. split; simpl; lia.
  - intros br bc Hlt1 Hlt2. rewrite block_slice_cells by done.
    apply unit_values_perm; auto.
    intros k Hk. by apply block_cell_in_grid.
Qed.

(** ** The search: effect, invariant and termination *)

Section frame.
(** One frame of [backtrack], after [pos] was selected and removed, in
    a search started on [board0] with [n] empty cells. *)
Context (rec : Board → list Cell → option Logged).
Context (n d : nat) (board0 board : Board) (pos : Cell) (rest : list Cell).
Hypothesis H9 : is_9x9 board.
Hypothesis Hpos : in_grid pos.
Hypothesis Hzero : board_get board pos = 0.
Hypothesis Hkeep : keeps_givens board0 board.
Hypothesis Hnodup : NoDup (pos :: rest).
Hypothesis Hrest : ∀ q, q ∈ rest ↔ (in_grid q ∧ board_get board q = 0) ∧ q ≠ pos.
Hypothesis Hdepth : (S d + length rest = n)%nat.
Hypothesis Hrec : ∀ b w,
  is_9x9 b → worklist_exact b w → keeps_givens board0 b →
  length w = length rest →
  ∃ r log, rec b w = Some (r, log) ∧ post b w r ∧
    Forall (step_ok n board0) log.

Lemma popped_not_given : board_get board0 pos = 0.
Proof using Hzero Hkeep.
  destruct (decide (board_get board0 pos = 0)) as [|Hne]; [done|].
  apply Hkeep in Hne. congruence.
Qed.

Lemma keeps_givens_assign num : keeps_givens board0 (board_set board pos num).
Proof using Hzero Hkeep.
  intros q Hq. rewrite get_set_ne; [by apply Hkeep|].
  intros Heq. rewrite <- Heq in Hq. apply Hq, popped_not_given.
Qed.

Lemma worklist_after_assign num cells :
  num ≠ 0 → cells ≡ₚ rest → worklist_exact (board_set board pos num) cells.
Proof using H9 Hpos Hnodup Hrest.
  intros Hnum Hperm. split.
  - rewrite Hperm. by apply NoDup_cons in Hnodup as [_ ?].
  - intros q. rewrite Hperm, Hrest.
    destruct (decide (pos = q)) as [<-|Hne].
    + rewrite get_set_eq by done. tauto.
    + rewrite get_set_ne by done. split; [tauto|]. intros [? ?].
      split; [done|]. by intros ->.
Qed.

Lemma try_candidates_log_spec nums :
  (∀ num, num ∈ nums → num ∈ candidates board pos.1 pos.2) →
  ∀ cells, cells ≡ₚ rest →
  ∃ r log, try_candidates_log rec d pos nums board cells = Some (r, log) ∧
    post board (pos :: rest) r ∧ Forall (step_ok n board0) log.
Proof using All.
  pose proof popped_not_given as Hgiven.
  induction nums as [|num nums IH]; intros Hnums cells Hperm; simpl.
  - eexists _, _. split; [done|]. split.
    + split; [done|]. split; [done|]. by rewrite Hperm.
    + repeat apply Forall_cons_2; [..|apply Forall_nil_2].
      * step_ok_split; rewrite ?Hperm; try done; lia.
      * step_ok_split; rewrite ?Hperm; try done; lia.
  - assert (num ∈ candidates board pos.1 pos.2) as Hnum
      by (apply Hnums, elem_of_cons; auto).
    pose proof (proj1 (elem_of_candidates _ _ _ _) Hnum) as [Hdigit _].
    destruct (Hrec (board_set board pos num) cells)
      as ([[ok b1] w1] & log1 & -> & [H91 Hpost] & Hlog).
    { by apply set_is_9x9. }
    { apply worklist_after_assign; [lia|done]. }
    { apply keeps_givens_assign. }
    { by rewrite Hperm. }
    assert (step_ok n board0 (Step d board cells (Assign pos num)))
      as Hassign.
    { step_ok_split; rewrite ?Hperm; try done; try lia.
      by intros ? [= <-]. }
    destruct ok.
    + destruct Hpost as (-> & Hfull & Hsame & Hcf & Hrg).
      assert (∀ q, q ∉ pos :: rest →
                board_get b1 q = board_get board q) as Hsame'.
      { intros q Hq. apply not_elem_of_cons in Hq as [Hne Hq].
        rewrite Hsame by (by rewrite Hperm). by apply get_set_ne. }
      eexists _, _. split; [done|]. split.
      * split; [done|]. split_and!; [done|done|done| |].
        -- intros ?. by apply Hcf, conflict_free_set.
        -- intros ?. apply Hrg, in_range_set; [done|done|lia|done].
      * constructor; [done|]. apply Forall_app. split; [done|].
        apply Forall_singleton. step_ok_split; try done; try lia.
        intros q Hq. rewrite Hsame'; [by apply Hkeep|].
        pose proof (Hkeep q Hq) as Hkq.
        intros [->|Hin%Hrest]%elem_of_cons; [done|].
        destruct Hin as [[_ Hz] _]. congruence.
    + destruct Hpost as (-> & Hw1). rewrite set_reset by done.
      destruct (IH (λ x Hx, Hnums x (proj2 (elem_of_cons _ _ _) (or_intror Hx)))
                  w1) as (r & log' & -> & Hpost' & Hlog').
      { by rewrite Hw1. }
      eexists _, _. split; [done|]. split; [done|].
      constructor; [done|]. apply Forall_app. split; [done|].
      constructor; [|done].
      step_ok_split; rewrite ?Hw1, ?Hperm, ?get_set_eq by done;
        try done; try lia.
      * apply keeps_givens_assign.
      * by intros ? [= <-].
Qed.
End frame.

Lemma backtrack_log_nil fuel d board :
  backtrack_log fuel d board []
  = Some ((true, board, []),
          [Step d board [] Enter; Step d board [] (Return true)]).
Proof. by destruct fuel. Qed.

Lemma backtrack_log_spec n board0 fuel : ∀ d board cells,
  is_9x9 board → worklist_exact board cells → keeps_givens board0 board →
  (length cells ≤ fuel)%nat → (d + length cells = n)%nat →
  ∃ r log, backtrack_log fuel d board cells = Some (r, log) ∧
    post board cells r ∧ Forall (step_ok n board0) log.
Proof.
  assert (∀ fuel d board, is_9x9 board → worklist_exact board [] →
            keeps_givens board0 board → (d + 0 = n)%nat →
            ∃ r log, backtrack_log fuel d board [] = Some (r, log) ∧
              post board [] r ∧ Forall (step_ok n board0) log) as Hnil.
  { intros fuel' d board H9 Hex Hkeep Hd. rewrite backtrack_log_nil.
    assert (full board) as Hfull.
    { intros q Hq Hz. by apply (elem_of_nil q), Hex. }
    eexists _, _. split; [done|]. split.
    - split; [done|]. split_and!; done.
    - repeat apply Forall_cons_2; [..|apply Forall_nil_2].
      + step_ok_split; try done; lia.
      + step_ok_split; try done; lia. }
  induction fuel as [|fuel IH]; intros d board cells H9 Hex Hkeep Hfuel Hd.
  { destruct cells; [by apply Hnil|simpl in Hfuel; lia]. }
  destruct cells as [|c cells]; [by apply Hnil|].
  cbn [backtrack_log].
  pose proof (sort_by_perm (sort_key board) (c :: cells)) as Hperm.
  destruct (sort_by (sort_key board) (c :: cells)) as [|pos rest] eqn:Hsort.
  { by apply Permutation_nil_l in Hperm. }
  pose proof (sort_by_first_min _ _ _ _ Hsort) as Hmin.
  pose proof Hex as [Hnd Hin].
  destruct (Hin pos) as [[Hpos Hzero] _].
  { rewrite <- Hperm. apply elem_of_cons; auto. }
  simpl in Hfuel, Hd.
  pose proof (Permutation_length Hperm) as Hlen. simpl in Hlen.
  destruct (try_candidates_log_spec (backtrack_log fuel (S d)) n d board0
              board pos rest)
    with (nums := candidates board pos.1 pos.2) (cells := rest)
    as (r & log & -> & Hpost & Hlog); try done.
  - by rewrite Hperm.
  - intros q. rewrite <- Hin, <- Hperm, elem_of_cons.
    rewrite <- Hperm in Hnd. apply NoDup_cons in Hnd as [Hnotin _].
    split; [|tauto]. intros Hq. split; [auto|]. by intros ->.
  - lia.
  - intros b w Hb Hw Hk Hlw. apply IH; [done|done|done|lia|lia].
  - eexists _, _. split; [done|]. split.
    + destruct r as [[ok b1] w1]. destruct Hpost as [Hb1 Hpost].
      split; [done|]. destruct ok.
      * destruct Hpost as (? & ? & Hsame & ? & ?). split_and!; try done.
        intros q Hq. apply Hsame. by rewrite Hperm.
      * destruct Hpost as [? ?]. split; [done|]. by rewrite <- Hperm.
    + constructor; [|constructor; [|done]].
      * step_ok_split; try done; lia.
      * step_ok_split; try done; lia.
Qed.

Lemma solve_log_spec board :
  is_9x9 board →
  ∃ r log, solve_log board = Some (r, log) ∧
    post board (empty_cells_of board) r ∧
    Forall (step_ok (length (empty_cells_of board)) board) log.
Proof.
  intros H9. apply backtrack_log_spec; [done| |done|done|done].
  apply empty_cells_of_exact.
Qed.

(** ** The log is ghost state *)

Lemma try_candidates_log_erase rec rec' d pos nums :
  (∀ b w, rec b w = fst <$> rec' b w) →
  ∀ b w, try_candidates rec pos nums b w
         = fst <$> try_candidates_log rec' d pos nums b w.
Proof.
  intros Hrec. induction nums as [|num nums IH]; intros b w; simpl; [done|].
  rewrite Hrec. destruct (rec' _ _) as [[[[[] b1] w1] log]|]; simpl; [done| |done].
  rewrite IH. by destruct (try_candidates_log _ _ _ _ _ _) as [[r l]|].
Qed.

Lemma backtrack_log_erase fuel : ∀ d board cells,
  backtrack fuel board cells = fst <$> backtrack_log fuel d board cells.
Proof.
  induction fuel as [|fuel IH]; intros d board [|c cells];
    cbn [backtrack backtrack_log]; try done.
  destruct (sort_by _ _) as [|pos rest]; [done|].
  rewrite (try_candidates_log_erase _ (backtrack_log fuel (S d)) d) by auto.
  by destruct (try_candidates_log _ _ _ _ _ _) as [[r l]|].
Qed.

Lemma solve_log_erase board :
  solve_sudoku_optimized board = fst <$> solve_log board.
Proof. apply backtrack_log_erase. Qed.

Lemma solve_spec board :
  is_9x9 board →
  ∃ r, solve_sudoku_optimized board = Some r ∧
    post board (empty_cells_of board) r.
Proof.
  intros (r & log & Hlog & Hpost & _)%solve_log_spec.
  exists r. by rewrite solve_log_erase, Hlog.
Qed.

(** ** The shape of the log *)



Lemma try_candidates_log_last rec d pos nums : ∀ b w r log,
  try_candidates_log rec d pos nums b w = Some (r, log) →
  ∃ l, log = l ++ [Step d r.1.2 r.2 (Return r.1.1)].
Proof.
  induction nums as [|num nums IH]; intros b w r log; simpl.
  - intros [= <- <-]. by eexists [_].
  - destruct (rec _ _) as [[[[ok b1] w1] log1]|]; [|done]. destruct ok.
    + intros [= <- <-]. by eexists (_ :: _).
    + destruct (try_candidates_log _ _ _ _ _ _) as [[r' log']|] eqn:Hloop;
        [|done].
      intros [= <- <-]. apply IH in Hloop as [l ->].
      exists (Step d b w (Assign pos num)
                :: log1 ++ Step d b1 w1 (Erase pos) :: l).
      simpl. by rewrite <- app_assoc.
Qed.

Lemma backtrack_log_ends fuel d b w r log :
  backtrack_log fuel d b w = Some (r, log) →
  ∃ mid, log = Step d b w Enter :: mid ++ [Step d r.1.2 r.2 (Return r.1.1)].
Proof.
  destruct fuel, w as [|c w]; cbn [backtrack_log]; try done.
  - intros [= <- <-]. by exists [].
  - intros [= <- <-]. by exists [].
  - destruct (sort_by _ _) as [|pos rest]; [done|].
    destruct (try_candidates_log _ _ _ _ _ _) as [[r' log']|] eqn:Hloop;
      [|done].
    intros [= <- <-]. apply try_candidates_log_last in Hloop as [l ->].
    by eexists (_ :: l).
Qed.









(** ** Checking the hypotheses on a given board *)

Lemma is_9x9_check board :
  length board = 9%nat → forallb (λ r, length r =? 9)%nat board = true →
  is_9x9 board.
Proof.
  intros Hlen Hrows. split; [done|]. apply Forall_forall. intros r Hr.
  rewrite forallb_forall in Hrows. apply Nat.eqb_eq, Hrows.
  by apply list_elem_of_In.
Qed.

Lemma full_check board :
  forallb (λ pos, negb (board_get board pos =? 0)) all_cells = true → full board.
Proof.
  intros Hall pos Hpos%elem_of_all_cells%list_elem_of_In.
  rewrite forallb_forall in Hall. specialize (Hall pos Hpos).
  apply negb_true_iff, Z.eqb_neq in Hall. done.
Qed.

Lemma in_range_check board :
  forallb (λ pos, (0 <=? board_get board pos) && (board_get board pos <=? 9)) all_cells
    = true →
  in_range board.
Proof.
  intros Hall pos Hpos%elem_of_all_cells%list_elem_of_In.
  rewrite forallb_forall in Hall. specialize (Hall pos Hpos).
  apply andb_true_iff in Hall as [?%Z.leb_le ?%Z.leb_le]. done.
Qed.

Lemma conflict_free_check board :
  Forall (λ r, NoDup (placed (row_slice board r))) (seq 0 9) →
  Forall (λ c, NoDup (placed (col_slice board c))) (seq 0 9) →
  Forall (λ br, Forall (λ bc,
      NoDup (placed (block_slice board (3 * br) (3 * bc)))) (seq 0 3))
    (seq 0 3) →
  conflict_free board.
Proof.
  rewrite !Forall_forall. intros Hr Hc Hb. split_and!.
  - intros r Hlt. apply Hr, elem_of_seq. lia.
  - intros c Hlt. apply Hc, elem_of_seq. lia.
  - intros br bc Hlt1 Hlt2.
    specialize (Hb br). rewrite Forall_forall in Hb.
    apply Hb; apply elem_of_seq; lia.
Qed.

Lemma full_empty_cells board : full board → empty_cells_of board = [].
Proof.
  intros Hfull. apply elem_of_nil_inv. intros pos.
  unfold empty_cells_of. rewrite list_elem_of_filter, elem_of_all_cells.
  intros [Hz Hpos]. by apply (Hfull pos).
Qed.

(** ** The cells of a block *)

Lemma elem_of_block board row col x :
  is_9x9 board → (row < 9)%nat → (col < 9)%nat →
  x ∈ block_slice board (3 * (row / 3)) (3 * (col / 3)) ↔
    ∃ r c, (3 * (row / 3) ≤ r < 3 * (row / 3) + 3)%nat ∧
           (3 * (col / 3) ≤ c < 3 * (col / 3) + 3)%nat ∧
           board_get board (r, c) = x.
Proof.
  intros H9 Hrow Hcol.
  assert (row / 3 < 3)%nat by (apply Nat.Div0.div_lt_upper_bound; lia).
  assert (col / 3 < 3)%nat by (apply Nat.Div0.div_lt_upper_bound; lia).
  rewrite block_slice_cells, elem_of_unit_values by done.
  generalize (row / 3)%nat (col / 3)%nat. intros br bc. split.
  - intros (k & Hk & <-).
    assert (k / 3 < 3)%nat by (apply Nat.Div0.div_lt_upper_bound; lia).
    assert (k `mod` 3 < 3)%nat by (apply Nat.mod_upper_bound; lia).
    exists (3 * br + k / 3)%nat, (3 * bc + k `mod` 3)%nat.
    split_and!; [lia..|done].
  - intros (r & c & Hr & Hc & <-).
    exists (3 * (r - 3 * br) + (c - 3 * bc))%nat. split; [lia|].
    unfold block_cell.
    rewrite <- (Nat.div_unique (3 * (r - 3 * br) + (c - 3 * bc)) 3
                  (r - 3 * br) (c - 3 * bc)) by lia.
    rewrite <- (Nat.mod_unique (3 * (r - 3 * br) + (c - 3 * bc)) 3
                  (r - 3 * br) (c - 3 * bc)) by lia.
    do 2 f_equal; lia.
Qed.

(** ** The model on given inputs *)

Example sort_by_is_stable :
  sort_by (λ p : nat * nat, p.2) [(0, 1); (1, 0); (2, 1); (3, 0)]%nat
  = [(1, 0); (3, 0); (0, 1); (2, 1)]%nat.
Proof. reflexivity. Qed.

Example candidates_of_dead_cell : candidates dead_board 0 8 = [].
Proof. reflexivity. Qed.

Example solve_zero_board :
  solve_sudoku_optimized zero_board
  = Some (true,
          [[1; 2; 3; 4; 5; 6; 7; 8; 9]; [4; 5; 6; 7; 8; 9; 1; 2; 3];
           [7; 8; 9; 1; 2; 3; 4; 5; 6]; [2; 6; 1; 8; 7; 5; 3; 9; 4];
           [3; 7; 4; 9; 1; 2; 8; 6; 5]; [5; 9; 8; 3; 6; 4; 2; 7; 1];
           [6; 3; 2; 5; 4; 7; 9; 1; 8]; [8; 4; 5; 2; 9; 1; 6; 3; 7];
           [9; 1; 7; 6; 3; 8; 5; 4; 2]],
          []).
Proof. vm_compute. reflexivity. Qed.

Example solve_near_board_log :
  (λ r : Logged, event <$> r.2) <$> solve_log near_board
  = Some [(0, Enter); (0, Select (1, 1) [(4, 4); (7, 8)]);
          (0, Assign (1, 1) 7);
          (1, Enter); (1, Select (4, 4) [(7, 8)]); (1, Assign (4, 4) 5);
          (2, Enter); (2, Select (7, 8) []); (2, Assign (7, 8) 5);
          (3, Enter); (3, Return true);
          (2, Return true); (1, Return true); (0, Return true)]%nat.
Proof. vm_compute. reflexivity. Qed.

(** * The properties of the specification *)

(** C1, as it is stated, fails on the code: nothing checks the given
    values, and a grid without empty cell is returned as solved whatever
    it holds.  On the grid of 81 ones (values in range, digits repeated)
    and on a solved grid whose first cell is replaced by 12 (no value
    repeated, one value out of range) the solver returns true and the
    first row is not a permutation of 1..9. *)
Lemma solve_valid_counterexample :
  (is_9x9 ones_board ∧ in_range ones_board ∧
   solve_sudoku_optimized ones_board = Some (true, ones_board, []) ∧
   ¬ solved ones_board) ∧
  (is_9x9 twelve_board ∧ conflict_free twelve_board ∧
   solve_sudoku_optimized twelve_board = Some (true, twelve_board, []) ∧
   ¬ solved twelve_board).
Proof.
  split; split_and!.
  - by apply is_9x9_check.
  - by apply in_range_check.
  - vm_compute. reflexivity.
  - intros (Hrow & _). specialize (Hrow 0%nat ltac:(lia)).
    assert (2 ∈ row_slice ones_board 0) as Hin
      by (rewrite Hrow; apply digits_spec; lia).
    revert Hin. apply (bool_decide_unpack _). by vm_compute.
  - by apply is_9x9_check.
  - apply conflict_free_check; apply (bool_decide_unpack _); by vm_compute.
  - vm_compute. reflexivity.
  - intros (Hrow & _). specialize (Hrow 0%nat ltac:(lia)).
    assert (12 ∈ digits) as Hin
      by (rewrite <- Hrow; apply elem_of_cons; by left).
    apply digits_spec in Hin. lia.
Qed.

(** C1 (amended): for every 9x9 grid whose cells hold 0 or a digit and
    whose placed digits do not repeat in any row, column or block, if
    solve returns true then every row, column and 3x3 block of the
    resulting grid is a permutation of 1..9. *)
Theorem solve_valid board board' cells' :
  is_9x9 board → in_range board → conflict_free board →
  solve_sudoku_optimized board = Some (true, board', cells') →
  solved board'.
Proof.
  intros H9 Hrange Hfree Hsolve.
  destruct (solve_spec board H9) as (r & Hr & Hpost).
  rewrite Hsolve in Hr. injection Hr as <-.
  destruct Hpost as (H9' & _ & Hfull & _ & Hcf & Hrg).
  apply full_conflict_free_solved; auto.
Qed.

Lemma solve_valid_witness :
  is_9x9 test_board ∧ in_range test_board ∧ conflict_free test_board ∧
  solve_sudoku_optimized test_board = Some (true, solved_board, []) ∧
  solved solved_board.
Proof.
  assert (is_9x9 test_board) as H9 by (by apply is_9x9_check).
  assert (in_range test_board) as Hrange by (by apply in_range_check).
  assert (conflict_free test_board) as Hfree
    by (apply conflict_free_check; apply (bool_decide_unpack _); by vm_compute).
  assert (solve_sudoku_optimized test_board = Some (true, solved_board, []))
    as Hsolve by (by vm_compute).
  split_and!; [exact H9|exact Hrange|exact Hfree|exact Hsolve|].
  exact (solve_valid test_board solved_board [] H9 Hrange Hfree Hsolve).
Defined.

(** C2: for every 9x9 grid, if solve returns false then the grid it
    leaves is the input grid. *)
Theorem solve_restores board board' cells' :
  is_9x9 board →
  solve_sudoku_optimized board = Some (false, board', cells') →
  board' = board.
Proof.
  intros H9 Hsolve.
  destruct (solve_spec board H9) as (r & Hr & Hpost).
  rewrite Hsolve in Hr. injection Hr as <-.
  by destruct Hpost as (_ & -> & _).
Qed.

Lemma solve_restores_witness :
  is_9x9 dead_board ∧
  ∃ board' cells',
    solve_sudoku_optimized dead_board = Some (false, board', cells') ∧
    board' = dead_board.
Proof.
  assert (is_9x9 dead_board) as H9 by (by apply is_9x9_check).
  split; [exact H9|]. eexists _, _. split; [vm_compute; reflexivity|].
  eapply (solve_restores dead_board _ _ H9). vm_compute. reflexivity.
Defined.

(** C3: on every 9x9 grid, the search writes only to cells that are
    empty in the input, and when solve returns true every cell that held
    a digit in the input holds the same digit in the result. *)
Theorem solve_keeps_givens board ok board' cells' log :
  is_9x9 board →
  solve_log board = Some ((ok, board', cells'), log) →
  solve_sudoku_optimized board = Some (ok, board', cells') ∧
  (∀ s pos, s ∈ log → written s = Some pos → board_get board pos = 0) ∧
  (ok = true → ∀ pos, board_get board pos ≠ 0 →
     board_get board' pos = board_get board pos).
Proof.
  intros H9 Hsolve.
  destruct (solve_log_spec board H9) as (r & log' & Hr & Hpost & Hlog).
  rewrite Hsolve in Hr. injection Hr as <- <-. split_and!.
  - by rewrite solve_log_erase, Hsolve.
  - intros s pos Hs Hw. rewrite Forall_forall in Hlog.
    destruct (Hlog s Hs) as (_ & _ & _ & Hwritten & _). auto.
  - intros -> pos Hpos. destruct Hpost as (_ & _ & _ & Hsame & _).
    apply Hsame. intros [Hz _]%list_elem_of_filter. done.
Qed.

Lemma solve_keeps_givens_witness :
  is_9x9 near_board ∧
  ∃ cells' log,
    solve_log near_board = Some ((true, solved_board, cells'), log) ∧
    solve_sudoku_optimized near_board = Some (true, solved_board, cells') ∧
    (∀ s pos, s ∈ log → written s = Some pos →
       board_get near_board pos = 0) ∧
    (true = true → ∀ pos, board_get near_board pos ≠ 0 →
       board_get solved_board pos = board_get near_board pos).
Proof.
  assert (is_9x9 near_board) as H9 by (by apply is_9x9_check).
  split; [exact H9|]. eexists _, _. split; [vm_compute; reflexivity|].
  eapply (solve_keeps_givens near_board true solved_board _ _ H9).
  vm_compute. reflexivity.
Defined.

(** C4: on a 9x9 grid and for a coordinate of the grid (in particular
    one whose cell is empty), [candidates] returns, without repetition,
    exactly the digits 1..9 that occur neither in the 9 cells of the
    row, nor in the 9 cells of the column, nor in the 3x3 block whose
    top-left corner is (3*(row/3), 3*(col/3)).  It only reads the grid:
    the board is an argument and no part of the result. *)
Theorem candidates_spec board row col :
  is_9x9 board → (row < 9)%nat → (col < 9)%nat →
  NoDup (candidates board row col) ∧
  ∀ x, x ∈ candidates board row col ↔
    1 ≤ x ≤ 9 ∧
    (∀ c, (c < 9)%nat → board_get board (row, c) ≠ x) ∧
    (∀ r, (r < 9)%nat → board_get board (r, col) ≠ x) ∧
    (∀ r c, (3 * (row / 3) ≤ r < 3 * (row / 3) + 3)%nat →
            (3 * (col / 3) ≤ c < 3 * (col / 3) + 3)%nat →
            board_get board (r, c) ≠ x).
Proof.
  intros H9 Hrow Hcol. split; [apply candidates_NoDup|]. intros x.
  rewrite elem_of_candidates, elem_of_block by done.
  rewrite row_slice_cells, col_slice_cells, !elem_of_unit_values by done.
  unfold row_cell, col_cell. split.
  - intros (Hx & Hr & Hc & Hb). split; [done|]. split_and!.
    + intros c Hlt Heq. apply Hr. eauto.
    + intros r Hlt Heq. apply Hc. eauto.
    + intros r c Hlt1 Hlt2 Heq. apply Hb. eauto.
  - intros (Hx & Hr & Hc & Hb). split; [done|]. split_and!.
    + intros (c & Hlt & Heq). by apply (Hr c).
    + intros (r & Hlt & Heq). by apply (Hc r).
    + intros (r & c & Hlt1 & Hlt2 & Heq). by apply (Hb r c).
Qed.

Lemma candidates_spec_witness :
  is_9x9 test_board ∧ (0 < 9)%nat ∧ (2 < 9)%nat ∧
  candidates test_board 0 2 = [1; 2; 4] ∧
  NoDup (candidates test_board 0 2) ∧
  ∀ x, x ∈ candidates test_board 0 2 ↔
    1 ≤ x ≤ 9 ∧
    (∀ c, (c < 9)%nat → board_get test_board (0%nat, c) ≠ x) ∧
    (∀ r, (r < 9)%nat → board_get test_board (r, 2%nat) ≠ x) ∧
    (∀ r c, (3 * (0 / 3) ≤ r < 3 * (0 / 3) + 3)%nat →
            (3 * (2 / 3) ≤ c < 3 * (2 / 3) + 3)%nat →
            board_get test_board (r, c) ≠ x).
Proof.
  assert (is_9x9 test_board) as H9 by (by apply is_9x9_check).
  split_and!; [exact H9|lia|lia|reflexivity|..];
    apply (candidates_spec test_board 0 2 H9); lia.
Defined.

(** C5: solve terminates on every 9x9 grid.  The grid has at most 81
    empty cells; a recursion depth equal to their number [n] is enough
    for the search to return; the depth never exceeds [n]; at every step
    but the returns of a success, the depth of the frame plus the number
    of coordinates it is in charge of (its worklist, and the coordinate
    it has popped) is [n]: every call enters with a worklist one shorter
    than its caller's, and every failing frame has reinserted the one
    coordinate it popped when it returns.  A search that fails returns
    the worklist at its initial length. *)
Theorem solve_terminates board :
  is_9x9 board →
  (length (empty_cells_of board) ≤ 81)%nat ∧
  ∃ r log,
    solve_log board = Some (r, log) ∧
    solve_sudoku_optimized board = Some r ∧
    Forall (λ s, (st_depth s ≤ length (empty_cells_of board))%nat ∧
                 (st_action s ≠ Return true →
                  st_depth s + frame_size s
                  = length (empty_cells_of board))%nat) log ∧
    (r.1.1 = false → length r.2 = length (empty_cells_of board)).
Proof.
  intros H9. split; [apply empty_cells_of_length|].
  destruct (solve_log_spec board H9) as (r & log & Hr & Hpost & Hlog).
  exists r, log. split_and!.
  - done.
  - by rewrite solve_log_erase, Hr.
  - eapply Forall_impl; [exact Hlog|]. by intros s (_ & Hd & _).
  - destruct r as [[ok b'] w']. simpl. intros ->.
    destruct Hpost as (_ & _ & Hw). by rewrite Hw.
Qed.

Lemma solve_terminates_witness :
  is_9x9 dead_board ∧
  (length (empty_cells_of dead_board) ≤ 81)%nat ∧
  ∃ r log,
    solve_log dead_board = Some (r, log) ∧
    solve_sudoku_optimized dead_board = Some r ∧
    Forall (λ s, (st_depth s ≤ length (empty_cells_of dead_board))%nat ∧
                 (st_action s ≠ Return true →
                  st_depth s + frame_size s
                  = length (empty_cells_of dead_board))%nat) log ∧
    (r.1.1 = false → length r.2 = length (empty_cells_of dead_board)).
Proof.
  assert (is_9x9 dead_board) as H9 by (by apply is_9x9_check).
  split; [exact H9|]. exact (solve_terminates dead_board H9).
Defined.





(** C8: in every search on a 9x9 grid, the first entry into the
    backtracking step is on the input grid with the initial worklist,
    and at every entry the worklist holds, without repetition, exactly
    the coordinates of the grid whose cell is 0. *)
Theorem worklist_invariant board :
  is_9x9 board →
  ∃ r log,
    solve_log board = Some (r, log) ∧
    solve_sudoku_optimized board = Some r ∧
    (∃ log', log = Step 0 board (empty_cells_of board) Enter :: log') ∧
    ∀ s, s ∈ log → st_action s = Enter →
      worklist_exact (st_board s) (st_cells s).
Proof.
  intros H9.
  destruct (solve_log_spec board H9) as (r & log & Hr & _ & Hlog).
  exists r, log.
  split_and!; [done|by rewrite solve_log_erase, Hr| |].
  { apply backtrack_log_ends in Hr as [mid ->]. eauto. }
  intros s Hs Hact. rewrite Forall_forall in Hlog.
  destruct (Hlog s Hs) as (_ & _ & _ & _ & Hex). by rewrite Hact in Hex.
Qed.

Lemma worklist_invariant_witness :
  is_9x9 test_board ∧
  ∃ r log,
    solve_log test_board = Some (r, log) ∧
    solve_sudoku_optimized test_board = Some r ∧
    (∃ log', log = Step 0 test_board (empty_cells_of test_board) Enter :: log') ∧
    ∀ s, s ∈ log → st_action s = Enter →
      worklist_exact (st_board s) (st_cells s).
Proof.
  assert (is_9x9 test_board) as H9 by (by apply is_9x9_check).
  split; [exact H9|]. exact (worklist_invariant test_board H9).
Defined.

(** C9: on a 9x9 grid without empty cell and without conflict, solve
    returns true at once (the only steps are the entry into the
    backtracking step and its return) and the grid is unchanged. *)
Theorem solve_full_valid board :
  is_9x9 board → full board → conflict_free board →
  solve_sudoku_optimized board = Some (true, board, []) ∧
  solve_log board
  = Some ((true, board, []),
          [Step 0 board [] Enter; Step 0 board [] (Return true)]).
Proof.
  intros _ Hfull _. unfold solve_sudoku_optimized, solve_log.
  by rewrite (full_empty_cells board Hfull).
Qed.

Lemma solve_full_valid_witness :
  is_9x9 solved_board ∧ full solved_board ∧ conflict_free solved_board ∧
  solve_sudoku_optimized solved_board = Some (true, solved_board, []) ∧
  solve_log solved_board
  = Some ((true, solved_board, []),
          [Step 0 solved_board [] Enter;
           Step 0 solved_board [] (Return true)]).
Proof.
  assert (is_9x9 solved_board) as H9 by (by apply is_9x9_check).
  assert (full solved_board) as Hfull by (by apply full_check).
  assert (conflict_free solved_board) as Hfree
    by (apply conflict_free_check; apply (bool_decide_unpack _); by vm_compute).
  split_and!; [exact H9|exact Hfull|exact Hfree|..];
    apply (solve_full_valid solved_board H9 Hfull Hfree).
Defined.

(** C10: solve validates nothing.  On every 9x9 grid it returns a
    result, which is a boolean with the two objects, and nothing else;
    on every 9x9 grid without empty cell it returns true and leaves the
    grid unchanged, whether or not the grid respects the uniqueness of
    the digits in rows, columns and blocks. *)
Theorem solve_no_validation board :
  is_9x9 board →
  (∃ ok board' cells',
     solve_sudoku_optimized board = Some (ok, board', cells')) ∧
  (full board → solve_sudoku_optimized board = Some (true, board, [])).
Proof.
  intros H9. split.
  - destruct (solve_spec board H9) as ([[ok board'] cells'] & Hr & _). eauto.
  - intros Hfull. unfold solve_sudoku_optimized.
    by rewrite (full_empty_cells board Hfull).
Qed.

Lemma solve_no_validation_witness :
  is_9x9 ones_board ∧ full ones_board ∧ ¬ conflict_free ones_board ∧
  solve_sudoku_optimized ones_board = Some (true, ones_board, []).
Proof.
  assert (is_9x9 ones_board) as H9 by (by apply is_9x9_check).
  assert (full ones_board) as Hfull by (by apply full_check).
  split_and!; [exact H9|exact Hfull| |].
  - intros (Hrow & _). specialize (Hrow 0%nat ltac:(lia)).
    revert Hrow. apply (bool_decide_unpack _). by vm_compute.
  - exact (proj2 (solve_no_validation ones_board H9) Hfull).
Defined.


(** * Further properties of the solver *)

(** ** [is_valid] *)

Lemma is_valid_true board row col num :
  is_valid board row col num = true ↔
    (num ∉ row_slice board row) ∧ (num ∉ col_slice board col) ∧
    (num ∉ block_slice board (3 * (row / 3)) (3 * (col / 3))).
Proof.
  unfold is_valid. repeat case_bool_decide; split; try done; tauto.
Qed.

Lemma div3_range r a : (r / 3 = a ↔ 3 * a ≤ r < 3 * a + 3)%nat.
Proof.
  pose proof (Nat.div_mod_eq r 3). pose proof (Nat.mod_upper_bound r 3).
  split; [intros <-; lia|]. intros Hr.
  symmetry. apply (Nat.div_unique r 3 a (r - 3 * a)); lia.
Qed.

Lemma block_cell_of br bc r c :
  (3 * br ≤ r < 3 * br + 3)%nat → (3 * bc ≤ c < 3 * bc + 3)%nat →
  ∃ k, (k < 9)%nat ∧ block_cell br bc k = (r, c).
Proof.
  intros Hr Hc. exists (3 * (r - 3 * br) + (c - 3 * bc))%nat. split; [lia|].
  unfold block_cell.
  rewrite <- (Nat.div_unique (3 * (r - 3 * br) + (c - 3 * bc)) 3
                (r - 3 * br) (c - 3 * bc)) by lia.
  rewrite <- (Nat.mod_unique (3 * (r - 3 * br) + (c - 3 * bc)) 3
                (r - 3 * br) (c - 3 * bc)) by lia.
  f_equal; lia.
Qed.

Lemma slices_peers board row col num :
  is_9x9 board → (row < 9)%nat → (col < 9)%nat →
  (num ∉ row_slice board row) ∧ (num ∉ col_slice board col) ∧
  (num ∉ block_slice board (3 * (row / 3)) (3 * (col / 3))) ↔
    ∀ q, in_grid q → same_unit (row, col) q → board_get board q ≠ num.
Proof.
  intros H9 Hrow Hcol.
  rewrite elem_of_block by done.
  rewrite row_slice_cells, col_slice_cells, !elem_of_unit_values by done.
  unfold row_cell, col_cell, same_unit, in_grid. cbn [fst snd]. split.
  - intros (Hr & Hc & Hb) [r c] [Hlr Hlc] Hunit Heq. cbn [fst snd] in *.
    destruct Hunit as [<-|[<-|[Hd1 Hd2]]].
    + apply Hr. eauto.
    + apply Hc. eauto.
    + apply Hb. exists r, c.
      split; [by apply div3_range|]. split; [by apply div3_range|done].
  - intros Hall. split_and!.
    + intros (c & Hlt & Heq). apply (Hall (row, c)); cbn [fst snd]; auto.
    + intros (r & Hlt & Heq). apply (Hall (r, col)); cbn [fst snd]; auto.
    + intros (r & c & Hr & Hc & Heq).
      pose proof (Nat.div_mod_eq row 3). pose proof (Nat.div_mod_eq col 3).
      assert (r < 9 ∧ c < 9)%nat as [? ?] by lia.
      apply div3_range in Hr, Hc.
      apply (Hall (r, c)); cbn [fst snd]; auto.
Qed.

(** X1: [is_valid(board, row, col, num)] on a 9x9 grid returns [True]
    exactly when no cell of the row, of the column or of the 3x3 block
    of the cell [(row, col)] holds [num] (the cell itself included). *)
Theorem is_valid_spec board row col num :
  is_9x9 board → (row < 9)%nat → (col < 9)%nat →
  is_valid board row col num = true ↔
    ∀ q, in_grid q → same_unit (row, col) q → board_get board q ≠ num.
Proof.
  intros H9 Hrow Hcol. rewrite is_valid_true. by apply slices_peers.
Qed.

Lemma is_valid_spec_witness :
  is_9x9 test_board ∧ (0 < 9)%nat ∧ (2 < 9)%nat ∧
  (is_valid test_board 0 2 1 = true ↔
     ∀ q, in_grid q → same_unit (0%nat, 2%nat) q →
       board_get test_board q ≠ 1).
Proof.
  assert (is_9x9 test_board) as H9 by (by apply is_9x9_check).
  split; [exact H9|]. split; [lia|]. split; [lia|].
  apply (is_valid_spec test_board 0 2 1 H9); lia.
Defined.

Lemma list_difference_filter (l k : list Z) :
  list_difference l k = filter (λ x, x ∉ k) l.
Proof.
  induction l as [|x l IH]; simpl; [done|].
  rewrite filter_cons. repeat case_decide; try done; by rewrite IH.
Qed.

(** X2: on a 9x9 grid the candidates of a cell are the digits 1 to 9,
    in increasing order, that [is_valid] accepts for it: the solver's
    [candidates] and the function [is_valid] apply the same rule. *)
Theorem candidates_filter_is_valid board row col :
  is_9x9 board → (row < 9)%nat → (col < 9)%nat →
  candidates board row col
  = filter (λ num, is_valid board row col num = true) digits.
Proof.
  intros _ _ _. unfold candidates.
  rewrite !list_difference_filter, !list_filter_filter.
  apply list_filter_iff. intros num. rewrite is_valid_true. tauto.
Qed.

Lemma candidates_filter_is_valid_witness :
  is_9x9 test_board ∧ (0 < 9)%nat ∧ (2 < 9)%nat ∧
  candidates test_board 0 2
  = filter (λ num, is_valid test_board 0 2 num = true) digits.
Proof.
  assert (is_9x9 test_board) as H9 by (by apply is_9x9_check).
  split; [exact H9|]. split; [lia|]. split; [lia|].
  apply (candidates_filter_is_valid test_board 0 2 H9); lia.
Defined.

Lemma conflict_free_set_slices board pos num :
  is_9x9 board → in_grid pos →
  (num ∉ row_slice board pos.1) → (num ∉ col_slice board pos.2) →
  (num ∉ block_slice board (3 * (pos.1 / 3)) (3 * (pos.2 / 3))) →
  conflict_free board → conflict_free (board_set board pos num).
Proof.
  intros H9 Hpos Hrow Hcol Hblk.
  rewrite !conflict_free_units by auto using set_is_9x9.
  intros (Hr & Hc & Hb). split_and!.
  - intros r Hlt. apply unit_ok_set; auto.
    + by intros k k' _ _ [= ->].
    + intros k _ <-. by rewrite <- row_slice_cells.
  - intros c Hlt. apply unit_ok_set; auto.
    + by intros k k' _ _ [= ->].
    + intros k _ <-. by rewrite <- col_slice_cells.
  - intros br bc Hlt1 Hlt2. apply unit_ok_set; auto.
    + apply block_cell_inj.
    + intros k Hk [E1 E2]%block_cell_origin; [|done].
      rewrite <- block_slice_cells, <- E1, <- E2 by done. done.
Qed.

(** X3: on a 9x9 grid without conflict, writing into a cell a number
    that [is_valid] accepts for it leaves the grid without conflict. *)
Theorem is_valid_placement board row col num :
  is_9x9 board → (row < 9)%nat → (col < 9)%nat →
  is_valid board row col num = true →
  conflict_free board → conflict_free (board_set board (row, col) num).
Proof.
  intros H9 Hrow Hcol (Hr & Hc & Hb)%is_valid_true Hfree.
  by apply conflict_free_set_slices.
Qed.

Lemma is_valid_placement_witness :
  is_9x9 test_board ∧ (0 < 9)%nat ∧ (2 < 9)%nat ∧
  is_valid test_board 0 2 1 = true ∧ conflict_free test_board ∧
  conflict_free (board_set test_board (0%nat, 2%nat) 1).
Proof.
  assert (is_9x9 test_board) as H9 by (by apply is_9x9_check).
  assert (is_valid test_board 0 2 1 = true) as Hvalid
    by (vm_compute; reflexivity).
  assert (conflict_free test_board) as Hfree
    by (apply conflict_free_check; apply (bool_decide_unpack _); by vm_compute).
  split; [exact H9|]. split; [lia|]. split; [lia|].
  split; [exact Hvalid|]. split; [exact Hfree|].
  apply (is_valid_placement test_board 0 2 1 H9); [lia|lia|exact Hvalid|exact Hfree].
Defined.

(** ** Solutions *)

Lemma peers_differ board p q :
  is_9x9 board → conflict_free board → in_grid p → in_grid q →
  same_unit p q → board_get board p ≠ 0 →
  board_get board p = board_get board q → p = q.
Proof.
  intros H9 (Hr & Hc & Hb)%conflict_free_units [Hp1 Hp2] [Hq1 Hq2] Hunit Hnz Heq;
    [|done].
  destruct p as [r c], q as [r' c']. unfold same_unit in Hunit.
  cbn [fst snd] in *. destruct Hunit as [<-|[<-|[Hd1 Hd2]]].
  - f_equal. by apply (Hr r Hp1 c c').
  - f_equal. by apply (Hc c Hp2 r r').
  - assert (r / 3 < 3)%nat by (apply Nat.Div0.div_lt_upper_bound; lia).
    assert (c / 3 < 3)%nat by (apply Nat.Div0.div_lt_upper_bound; lia).
    destruct (block_cell_of (r / 3) (c / 3) r c) as (k & Hk & Ek);
      [by apply div3_range..|].
    destruct (block_cell_of (r / 3) (c / 3) r' c') as (k' & Hk' & Ek');
      [by apply div3_range..|].
    rewrite <- Ek in Hnz. rewrite <- Ek, <- Ek' in Heq.
    rewrite <- Ek, <- Ek'. f_equal.
    by apply (Hb (r / 3)%nat (c / 3)%nat).
Qed.

Lemma solved_conflict_free sol : solved sol → conflict_free sol.
Proof.
  assert (NoDup digits) as Hd by (apply (bool_decide_unpack _); by vm_compute).
  intros (Hr & Hc & Hb). split_and!.
  - intros r Hlt. apply NoDup_filter. by rewrite Hr.
  - intros c Hlt. apply NoDup_filter. by rewrite Hc.
  - intros br bc Hlt1 Hlt2. apply NoDup_filter. by rewrite Hb.
Qed.

Lemma solved_digit sol pos :
  is_9x9 sol → solved sol → in_grid pos → 1 ≤ board_get sol pos ≤ 9.
Proof.
  intros H9 (Hr & _) [Hp1 Hp2]. apply digits_spec.
  rewrite <- (Hr pos.1 Hp1), row_slice_cells by done.
  apply elem_of_unit_values. exists pos.2. split; [done|].
  by destruct pos.
Qed.

Lemma board_get_outside a b pos :
  is_9x9 a → is_9x9 b → ¬ in_grid pos → board_get a pos = board_get b pos.
Proof.
  intros Ha Hb Hout. unfold board_get.
  destruct (decide (pos.1 < 9)%nat) as [Hr|Hr].
  - pose proof (row_length a pos.1 Ha Hr) as Hla.
    pose proof (row_length b pos.1 Hb Hr) as Hlb.
    rewrite (list_lookup_total_alt (a !!! pos.1)),
      (list_lookup_total_alt (b !!! pos.1)).
    unfold in_grid in Hout. rewrite !lookup_ge_None_2 by lia. done.
  - destruct Ha as [Hla _], Hb as [Hlb _].
    rewrite (list_lookup_total_alt a), (list_lookup_total_alt b).
    rewrite !lookup_ge_None_2 by lia. done.
Qed.

Lemma solution_givens board sol :
  is_9x9 board → solution_of board sol →
  conflict_free board ∧ in_range board.
Proof.
  intros H9 (Hs9 & Hsolved & Hkeep).
  pose proof (solved_conflict_free sol Hsolved) as Hfree.
  apply conflict_free_units in Hfree as (Hr & Hc & Hb); [|done].
  assert (∀ u, unit_ok sol u → unit_ok board u) as Hunit.
  { intros u Hu k k' Hk Hk' Hnz Heq. apply Hu; [done|done|..].
    - by rewrite Hkeep.
    - rewrite !Hkeep; [done|congruence|done]. }
  split.
  - apply conflict_free_units; [done|]. split_and!; auto.
  - intros pos Hpos. destruct (decide (board_get board pos = 0)) as [->|Hnz].
    + lia.
    + rewrite <- (Hkeep pos Hnz).
      pose proof (solved_digit sol pos Hs9 Hsolved Hpos). lia.
Qed.

Lemma solution_candidate board sol pos :
  is_9x9 board → solution_of board sol → in_grid pos →
  board_get board pos = 0 →
  board_get sol pos ∈ candidates board pos.1 pos.2 ∧
  solution_of (board_set board pos (board_get sol pos)) sol.
Proof.
  intros H9 (Hs9 & Hsolved & Hkeep) Hpos Hzero.
  pose proof (solved_digit sol pos Hs9 Hsolved Hpos) as Hdigit.
  split.
  - apply elem_of_candidates. split; [done|].
    pose proof Hpos as [Hp1 Hp2].
    apply slices_peers; [done..|].
    intros q Hq Hunit Heq.
    assert (board_get sol q = board_get sol pos) as Hsol
      by (rewrite <- Heq; apply Hkeep; lia).
    assert (pos = q) as <-; [|lia].
    apply (peers_differ sol pos q Hs9 (solved_conflict_free sol Hsolved)
             Hpos Hq); [by destruct pos|lia|done].
  - split_and!; [done|done|]. intros q Hq.
    destruct (decide (pos = q)) as [<-|Hne].
    + by rewrite get_set_eq.
    + rewrite get_set_ne in Hq |- * by done. by apply Hkeep.
Qed.

Lemma backtrack_post fuel board cells :
  is_9x9 board → worklist_exact board cells → (length cells ≤ fuel)%nat →
  ∃ r, backtrack fuel board cells = Some r ∧ post board cells r.
Proof.
  intros H9 Hex Hfuel.
  destruct (backtrack_log_spec (0 + length cells) board fuel 0 board cells)
    as (r & log & Hr & Hpost & _); try done.
  exists r. by rewrite (backtrack_log_erase fuel 0), Hr.
Qed.

Lemma try_candidates_complete rec board pos rest sol :
  is_9x9 board → in_grid pos → board_get board pos = 0 →
  NoDup (pos :: rest) →
  (∀ q, q ∈ rest ↔ (in_grid q ∧ board_get board q = 0) ∧ q ≠ pos) →
  (∀ b w, is_9x9 b → worklist_exact b w → length w = length rest →
     ∃ r, rec b w = Some r ∧ post b w r ∧
       (r.1.1 = false → ¬ solution_of b sol)) →
  ∀ nums, (∀ num, num ∈ nums → num ≠ 0) →
  ∀ cells, cells ≡ₚ rest →
  ∀ b' w', try_candidates rec pos nums board cells = Some (false, b', w') →
    ∀ num, num ∈ nums → ¬ solution_of (board_set board pos num) sol.
Proof.
  intros H9 Hpos Hzero Hnd Hrest Hrec.
  induction nums as [|num nums IH]; intros Hnz cells Hperm b' w'; simpl.
  { by intros _ n ?%elem_of_nil. }
  destruct (Hrec (board_set board pos num) cells)
    as ([[ok b1] w1] & -> & [H91 Hpost] & Hnone).
  { by apply set_is_9x9. }
  { apply (worklist_after_assign board pos rest); try done.
    apply Hnz, elem_of_cons. auto. }
  { by rewrite Hperm. }
  destruct ok; [done|]. destruct Hpost as [-> Hw1].
  rewrite set_reset by done. intros Hloop n [->|Hn]%elem_of_cons.
  - by apply Hnone.
  - eapply (IH (λ x Hx, Hnz x (proj2 (elem_of_cons _ _ _) (or_intror Hx)))
              w1); [by rewrite Hw1|done|done].
Qed.

Lemma backtrack_complete sol fuel : ∀ board cells,
  is_9x9 board → worklist_exact board cells → (length cells ≤ fuel)%nat →
  ∃ r, backtrack fuel board cells = Some r ∧ post board cells r ∧
    (r.1.1 = false → ¬ solution_of board sol).
Proof.
  induction fuel as [|fuel IH]; intros board cells H9 Hex Hfuel;
    destruct (backtrack_post _ board cells H9 Hex Hfuel) as (r & Hr & Hpost);
    exists r; (split; [done|]); (split; [done|]);
    destruct r as [[[] b'] w']; try done; intros _.
  { destruct cells; [by simpl in Hr|simpl in Hfuel; lia]. }
  destruct cells as [|c cells]; [by simpl in Hr|]. cbn [backtrack] in Hr.
  pose proof (sort_by_perm (sort_key board) (c :: cells)) as Hperm.
  destruct (sort_by (sort_key board) (c :: cells)) as [|pos rest]; [done|].
  pose proof Hex as [Hnd Hin].
  destruct (Hin pos) as [[Hpos Hzero] _].
  { rewrite <- Hperm. apply elem_of_cons; auto. }
  pose proof (Permutation_length Hperm) as Hlen. simpl in Hlen, Hfuel.
  intros Hsol.
  destruct (solution_candidate board sol pos H9 Hsol Hpos Hzero)
    as [Hcand Hsol'].
  revert Hsol'.
  eapply (try_candidates_complete (backtrack fuel) board pos rest sol);
    try done.
  - by rewrite Hperm.
  - intros q. rewrite <- Hin, <- Hperm, elem_of_cons.
    rewrite <- Hperm in Hnd. apply NoDup_cons in Hnd as [Hnotin _].
    split; [|tauto]. intros Hq. split; [auto|]. by intros ->.
  - intros b w Hb Hw Hlw. apply IH; [done|done|lia].
  - intros num [Hd _]%elem_of_candidates. lia.
Qed.

Lemma solve_result board :
  is_9x9 board →
  ∃ r, solve_sudoku_optimized board = Some r ∧
    post board (empty_cells_of board) r ∧
    (r.1.1 = false → ∀ sol, ¬ solution_of board sol).
Proof.
  intros H9. destruct (solve_spec board H9) as (r & Hr & Hpost).
  exists r. split_and!; [done|done|]. intros Hfalse sol.
  destruct (backtrack_complete sol (length (empty_cells_of board)) board
              (empty_cells_of board) H9 (empty_cells_of_exact board))
    as (r' & Hr' & _ & Hnone); [done|].
  unfold solve_sudoku_optimized in Hr. rewrite Hr in Hr'.
  injection Hr' as <-. auto.
Qed.

Lemma keeps_givens_result board b' :
  (∀ q, q ∉ empty_cells_of board → board_get b' q = board_get board q) →
  keeps_givens board b'.
Proof.
  intros Hsame pos Hpos. apply Hsame.
  intros [Hz _]%list_elem_of_filter. done.
Qed.

Lemma board_ext a b :
  is_9x9 a → is_9x9 b →
  (∀ pos, in_grid pos → board_get a pos = board_get b pos) → a = b.
Proof.
  intros [Hla Hra] [Hlb Hrb] Heq.
  apply (list_eq_same_length _ _ 9); [done..|].
  intros i x y Hi Hx Hy.
  rewrite Forall_lookup in Hra, Hrb.
  apply (list_eq_same_length _ _ 9); [by eapply Hrb|by eapply Hra|].
  intros j u v Hj Hu Hv. specialize (Heq (i, j)). unfold board_get in Heq.
  cbn [fst snd] in Heq.
  rewrite (list_lookup_total_correct a i x Hx),
    (list_lookup_total_correct b i y Hy),
    (list_lookup_total_correct x j u Hu),
    (list_lookup_total_correct y j v Hv) in Heq.
  apply Heq. split; done.
Qed.

(** ** Checking that a grid is a solution *)

Lemma keeps_givens_check a b :
  is_9x9 a → is_9x9 b →
  forallb (λ pos, (board_get a pos =? 0) || (board_get b pos =? board_get a pos))
    all_cells = true →
  keeps_givens a b.
Proof.
  intros Ha Hb Hall pos Hnz.
  destruct (decide ((pos.1 < 9)%nat ∧ (pos.2 < 9)%nat)) as [Hpos|Hpos].
  - rewrite forallb_forall in Hall.
    apply elem_of_all_cells, list_elem_of_In in Hpos.
    specialize (Hall pos Hpos).
    apply orb_true_iff in Hall as [?%Z.eqb_eq|?%Z.eqb_eq]; done.
  - by apply board_get_outside.
Qed.

Lemma solved_board_solved : is_9x9 solved_board ∧ solved solved_board.
Proof.
  assert (is_9x9 solved_board) as H9 by (by apply is_9x9_check).
  split; [exact H9|].
  apply full_conflict_free_solved;
    [exact H9|by apply in_range_check|by apply full_check|].
  apply conflict_free_check; apply (bool_decide_unpack _); by vm_compute.
Qed.

Lemma test_board_solution : solution_of test_board solved_board.
Proof.
  destruct solved_board_solved as [H9 Hsolved].
  split; [exact H9|]. split; [exact Hsolved|].
  apply keeps_givens_check; [by apply is_9x9_check|exact H9|].
  vm_compute. reflexivity.
Qed.

Lemma near_board_solution : solution_of near_board solved_board.
Proof.
  destruct solved_board_solved as [H9 Hsolved].
  split; [exact H9|]. split; [exact Hsolved|].
  apply keeps_givens_check; [by apply is_9x9_check|exact H9|].
  vm_compute. reflexivity.
Qed.

(** A grid whose empty cells have one candidate each has at most one
    solution. *)
Lemma single_candidates_unique board sol :
  is_9x9 board → solution_of board sol →
  forallb (λ pos, negb (board_get board pos =? 0)
                  || bool_decide (length (candidates board pos.1 pos.2) = 1%nat))
    all_cells = true →
  ∀ sol', solution_of board sol' → sol' = sol.
Proof.
  intros H9 Hsol Hall sol' Hsol'.
  pose proof Hsol as (Hs9 & _ & Hkeep). pose proof Hsol' as (Hs9' & _ & Hkeep').
  apply board_ext; [done|done|]. intros pos Hpos.
  rewrite forallb_forall in Hall.
  pose proof Hpos as Hin. apply elem_of_all_cells, list_elem_of_In in Hin.
  specialize (Hall pos Hin).
  apply orb_true_iff in Hall as [Hnz%negb_true_iff%Z.eqb_neq|Hone].
  - by rewrite (Hkeep pos Hnz), (Hkeep' pos Hnz).
  - apply bool_decide_eq_true in Hone.
    destruct (decide (board_get board pos = 0)) as [Hz|Hnz];
      [|by rewrite (Hkeep pos Hnz), (Hkeep' pos Hnz)].
    destruct (solution_candidate board sol pos H9 Hsol Hpos Hz) as [Hc _].
    destruct (solution_candidate board sol' pos H9 Hsol' Hpos Hz) as [Hc' _].
    destruct (candidates board pos.1 pos.2) as [|x [|y l]]; try done.
    apply list_elem_of_singleton in Hc, Hc'. congruence.
Qed.

(** X4: when solve returns false on a 9x9 grid, the grid has no
    solution, that is no 9x9 grid whose rows, columns and blocks are
    permutations of 1..9 and that keeps its placed digits. *)
Theorem solve_false_no_solution board board' cells' :
  is_9x9 board →
  solve_sudoku_optimized board = Some (false, board', cells') →
  ∀ sol, ¬ solution_of board sol.
Proof.
  intros H9 Hsolve. destruct (solve_result board H9) as (r & Hr & _ & Hnone).
  rewrite Hsolve in Hr. injection Hr as <-. by apply Hnone.
Qed.

Lemma solve_false_no_solution_witness :
  is_9x9 dead_board ∧
  (∃ cells', solve_sudoku_optimized dead_board = Some (false, dead_board, cells')) ∧
  ∀ sol, ¬ solution_of dead_board sol.
Proof.
  assert (is_9x9 dead_board) as H9 by (by apply is_9x9_check).
  split; [exact H9|]. split; [eexists; vm_compute; reflexivity|].
  eapply (solve_false_no_solution dead_board); [exact H9|].
  vm_compute. reflexivity.
Defined.

(** X5: on a 9x9 grid that has a solution, solve returns true with an
    empty worklist and leaves a solution of the grid. *)
Theorem solve_finds_solution board sol :
  is_9x9 board → solution_of board sol →
  ∃ board',
    solve_sudoku_optimized board = Some (true, board', []) ∧
    solution_of board board'.
Proof.
  intros H9 Hsol.
  destruct (solve_result board H9) as ([[ok b'] w'] & Hr & Hpost & Hnone).
  destruct ok; [|by destruct (Hnone eq_refl sol)].
  destruct Hpost as (H9' & -> & Hfull & Hsame & Hcf & Hrg).
  destruct (solution_givens board sol H9 Hsol) as [Hfree Hrange].
  exists b'. split; [done|]. split_and!; [done| |by apply keeps_givens_result].
  apply full_conflict_free_solved; auto.
Qed.

Lemma solve_finds_solution_witness :
  is_9x9 test_board ∧ solution_of test_board solved_board ∧
  ∃ board',
    solve_sudoku_optimized test_board = Some (true, board', []) ∧
    solution_of test_board board'.
Proof.
  assert (is_9x9 test_board) as H9 by (by apply is_9x9_check).
  split; [exact H9|]. split; [exact test_board_solution|].
  exact (solve_finds_solution test_board solved_board H9 test_board_solution).
Defined.

(** X6: on a 9x9 grid with exactly one solution, solve returns true
    and leaves that solution. *)
Theorem solve_unique_solution board sol :
  is_9x9 board → solution_of board sol →
  (∀ sol', solution_of board sol' → sol' = sol) →
  solve_sudoku_optimized board = Some (true, sol, []).
Proof.
  intros H9 Hsol Hunique.
  destruct (solve_result board H9) as ([[ok b'] w'] & Hr & Hpost & Hnone).
  destruct ok; [|by destruct (Hnone eq_refl sol)].
  destruct Hpost as (H9' & -> & Hfull & Hsame & Hcf & Hrg).
  destruct (solution_givens board sol H9 Hsol) as [Hfree Hrange].
  rewrite Hr. do 3 f_equal. apply Hunique.
  split_and!; [done| |by apply keeps_givens_result].
  apply full_conflict_free_solved; auto.
Qed.

Lemma solve_unique_solution_witness :
  is_9x9 near_board ∧ solution_of near_board solved_board ∧
  (∀ sol', solution_of near_board sol' → sol' = solved_board) ∧
  solve_sudoku_optimized near_board = Some (true, solved_board, []).
Proof.
  assert (is_9x9 near_board) as H9 by (by apply is_9x9_check).
  assert (∀ sol', solution_of near_board sol' → sol' = solved_board)
    as Hunique.
  { apply (single_candidates_unique near_board solved_board H9
             near_board_solution).
    vm_compute. reflexivity. }
  split; [exact H9|]. split; [exact near_board_solution|].
  split; [exact Hunique|].
  exact (solve_unique_solution near_board solved_board H9
           near_board_solution Hunique).
Defined.

(** X7: solving twice changes nothing: when solve returns true on a
    9x9 grid, solve on the grid it leaves returns true and leaves it
    unchanged. *)
Theorem solve_idempotent board board' cells' :
  is_9x9 board →
  solve_sudoku_optimized board = Some (true, board', cells') →
  solve_sudoku_optimized board' = Some (true, board', []).
Proof.
  intros H9 Hsolve. destruct (solve_spec board H9) as (r & Hr & Hpost).
  rewrite Hsolve in Hr. injection Hr as <-.
  destruct Hpost as (_ & _ & Hfull & _).
  unfold solve_sudoku_optimized. by rewrite (full_empty_cells board' Hfull).
Qed.

Lemma solve_idempotent_witness :
  is_9x9 test_board ∧
  solve_sudoku_optimized test_board = Some (true, solved_board, []) ∧
  solve_sudoku_optimized solved_board = Some (true, solved_board, []).
Proof.
  assert (is_9x9 test_board) as H9 by (by apply is_9x9_check).
  assert (solve_sudoku_optimized test_board = Some (true, solved_board, []))
    as Hsolve by (vm_compute; reflexivity).
  split; [exact H9|]. split; [exact Hsolve|].
  exact (solve_idempotent test_board solved_board [] H9 Hsolve).
Defined.

(** X8: on a 9x9 grid with an empty cell that has no candidate, solve
    returns false with the grid unchanged, and no step of the search
    writes to the grid. *)
Theorem dead_end_fails board pos :
  is_9x9 board → in_grid pos → board_get board pos = 0 →
  candidates board pos.1 pos.2 = [] →
  ∃ cells' log,
    solve_log board = Some ((false, board, cells'), log) ∧
    solve_sudoku_optimized board = Some (false, board, cells') ∧
    ∀ s, s ∈ log → written s = None.
Proof.
  intros H9 Hpos Hzero Hnone.
  assert (pos ∈ empty_cells_of board) as Hin
    by (by apply empty_cells_of_exact).
  assert (∃ cells' log, solve_log board = Some ((false, board, cells'), log) ∧
            ∀ s, s ∈ log → written s = None) as (cells' & log & Hlog & Hw).
  { unfold solve_log.
    destruct (empty_cells_of board) as [|c cells] eqn:Hcells;
      [by apply elem_of_nil in Hin|].
    cbn [length backtrack_log].
    destruct (sort_by (sort_key board) (c :: cells)) as [|p rest] eqn:Hsort.
    { pose proof (sort_by_perm (sort_key board) (c :: cells)) as Hperm.
      rewrite Hsort in Hperm. by apply Permutation_nil_l in Hperm. }
    apply sort_by_first_min in Hsort as (l1 & l2 & Hsplit & Hlt & Hle & _).
    assert (sort_key board p = 0%nat) as Hkey.
    { assert (sort_key board pos = 0%nat) as Hk0
        by (unfold sort_key; by rewrite Hnone).
      rewrite Hsplit in Hin.
      apply elem_of_app in Hin as [Hin|[->|Hin]%elem_of_cons].
      - specialize (Hlt pos Hin). lia.
      - done.
      - specialize (Hle pos Hin). lia. }
    unfold sort_key in Hkey. apply nil_length_inv in Hkey. rewrite Hkey.
    cbn [try_candidates_log]. eexists _, _. split; [done|].
    intros s Hs. rewrite !elem_of_cons, elem_of_nil in Hs.
    by destruct Hs as [->|[->|[->|[->|[]]]]]. }
  exists cells', log. split_and!; [done| |done].
  by rewrite solve_log_erase, Hlog.
Qed.

Lemma dead_end_fails_witness :
  is_9x9 dead_board ∧ in_grid (0%nat, 8%nat) ∧
  board_get dead_board (0%nat, 8%nat) = 0 ∧
  candidates dead_board 0 8 = [] ∧
  ∃ cells' log,
    solve_log dead_board = Some ((false, dead_board, cells'), log) ∧
    solve_sudoku_optimized dead_board = Some (false, dead_board, cells') ∧
    ∀ s, s ∈ log → written s = None.
Proof.
  assert (is_9x9 dead_board) as H9 by (by apply is_9x9_check).
  assert (in_grid (0%nat, 8%nat)) as Hpos by (split; simpl; lia).
  split; [exact H9|]. split; [exact Hpos|].
  split; [reflexivity|]. split; [vm_compute; reflexivity|].
  apply (dead_end_fails dead_board (0%nat, 8%nat) H9 Hpos);
    [reflexivity|vm_compute; reflexivity].
Defined.

(** ** Boards met during the search *)

Section boards.
(** A property of boards kept by the assignment of a candidate to an
    empty cell holds of every board the search goes through. *)
Context (P : Board → Prop).
Hypothesis Hassign : ∀ b pos num,
  is_9x9 b → in_grid pos → board_get b pos = 0 →
  num ∈ candidates b pos.1 pos.2 → P b → P (board_set b pos num).

Lemma try_candidates_log_boards rec d board pos rest :
  is_9x9 board → in_grid pos → board_get board pos = 0 →
  NoDup (pos :: rest) →
  (∀ q, q ∈ rest ↔ (in_grid q ∧ board_get board q = 0) ∧ q ≠ pos) →
  P board →
  (∀ b w, is_9x9 b → worklist_exact b w → length w = length rest → P b →
     ∃ r log, rec b w = Some (r, log) ∧ post b w r ∧
       Forall (λ s, P (st_board s)) log ∧ P r.1.2) →
  ∀ nums, (∀ num, num ∈ nums → num ∈ candidates board pos.1 pos.2) →
  ∀ cells, cells ≡ₚ rest →
  ∃ r log, try_candidates_log rec d pos nums board cells = Some (r, log) ∧
    Forall (λ s, P (st_board s)) log ∧ P r.1.2.
Proof using Hassign.
  intros H9 Hpos Hzero Hnd Hrest HP Hrec.
  induction nums as [|num nums IH]; intros Hnums cells Hperm; simpl.
  { eexists _, _. split; [done|]. split; [|done]. by repeat constructor. }
  assert (num ∈ candidates board pos.1 pos.2) as Hnum
    by (apply Hnums, elem_of_cons; auto).
  pose proof (proj1 (elem_of_candidates _ _ _ _) Hnum) as [Hdigit _].
  destruct (Hrec (board_set board pos num) cells)
    as ([[ok b1] w1] & log1 & -> & [H91 Hpost] & Hlog & HP1).
  { by apply set_is_9x9. }
  { apply (worklist_after_assign board pos rest); try done. lia. }
  { by rewrite Hperm. }
  { by apply Hassign. }
  cbn [fst snd] in *. destruct ok.
  - eexists _, _. split; [done|]. split; [|done].
    constructor; [done|]. apply Forall_app. split; [done|].
    by apply Forall_singleton.
  - destruct Hpost as [-> Hw1]. rewrite set_reset by done.
    destruct (IH (λ x Hx, Hnums x (proj2 (elem_of_cons _ _ _) (or_intror Hx)))
                w1) as (r & log' & -> & Hlog' & HPr).
    { by rewrite Hw1. }
    eexists _, _. split; [done|]. split; [|done].
    constructor; [done|]. apply Forall_app. split; [done|].
    by constructor.
Qed.

Lemma backtrack_log_boards fuel : ∀ d board cells,
  is_9x9 board → worklist_exact board cells → (length cells ≤ fuel)%nat →
  P board →
  ∃ r log, backtrack_log fuel d board cells = Some (r, log) ∧
    post board cells r ∧ Forall (λ s, P (st_board s)) log ∧ P r.1.2.
Proof using Hassign.
  induction fuel as [|fuel IH]; intros d board cells H9 Hex Hfuel HP;
    destruct (backtrack_log_spec (d + length cells) board _ d board cells
                H9 Hex (λ _ _, eq_refl) Hfuel eq_refl)
      as (r & log & Hr & Hpost & _);
    exists r, log; (split; [done|]); (split; [done|]).
  { destruct cells; [|simpl in Hfuel; lia]. rewrite backtrack_log_nil in Hr.
    injection Hr as <- <-. split; [|done]. by repeat constructor. }
  destruct cells as [|c cells].
  { rewrite backtrack_log_nil in Hr.
    injection Hr as <- <-. split; [|done]. by repeat constructor. }
  cbn [backtrack_log] in Hr.
  pose proof (sort_by_perm (sort_key board) (c :: cells)) as Hperm.
  destruct (sort_by (sort_key board) (c :: cells)) as [|pos rest]; [done|].
  pose proof Hex as [Hnd Hin].
  destruct (Hin pos) as [[Hpos Hzero] _].
  { rewrite <- Hperm. apply elem_of_cons; auto. }
  pose proof (Permutation_length Hperm) as Hlen. simpl in Hlen, Hfuel.
  destruct (try_candidates_log_boards (backtrack_log fuel (S d)) d board
              pos rest) with (nums := candidates board pos.1 pos.2)
              (cells := rest) as (r' & log' & Hloop & Hlog' & HPr');
    try done.
  - by rewrite Hperm.
  - intros q. rewrite <- Hin, <- Hperm, elem_of_cons.
    rewrite <- Hperm in Hnd. apply NoDup_cons in Hnd as [Hnotin _].
    split; [|tauto]. intros Hq. split; [auto|]. by intros ->.
  - intros b w Hb Hw Hlw HPb. apply IH; [done|done|lia|done].
  - rewrite Hloop in Hr. injection Hr as <- <-. split; [|done].
    by do 2 (constructor; [done|]).
Qed.
End boards.

(** X9: on a 9x9 grid without conflict whose cells hold 0 to 9, every
    grid the search goes through, at every step, is without conflict
    and holds 0 to 9 in every cell. *)
Theorem search_boards_consistent board :
  is_9x9 board → in_range board → conflict_free board →
  ∃ r log,
    solve_log board = Some (r, log) ∧
    ∀ s, s ∈ log → conflict_free (st_board s) ∧ in_range (st_board s).
Proof.
  intros H9 Hrange Hfree.
  destruct (backtrack_log_boards (λ b, conflict_free b ∧ in_range b))
    with (fuel := length (empty_cells_of board)) (d := 0%nat)
         (board := board) (cells := empty_cells_of board)
    as (r & log & Hr & _ & Hlog & _); try done.
  - intros b pos num Hb Hpos Hz Hnum [Hcf Hrg]. split.
    + by apply conflict_free_set.
    + apply elem_of_candidates in Hnum as [Hd _].
      apply in_range_set; [done|done|lia|done].
  - apply empty_cells_of_exact.
  - exists r, log. split; [done|]. by apply Forall_forall.
Qed.

Lemma search_boards_consistent_witness :
  is_9x9 test_board ∧ in_range test_board ∧ conflict_free test_board ∧
  ∃ r log,
    solve_log test_board = Some (r, log) ∧
    ∀ s, s ∈ log → conflict_free (st_board s) ∧ in_range (st_board s).
Proof.
  assert (is_9x9 test_board) as H9 by (by apply is_9x9_check).
  assert (in_range test_board) as Hrange by (by apply in_range_check).
  assert (conflict_free test_board) as Hfree
    by (apply conflict_free_check; apply (bool_decide_unpack _); by vm_compute).
  split; [exact H9|]. split; [exact Hrange|]. split; [exact Hfree|].
  exact (search_boards_consistent test_board H9 Hrange Hfree).
Defined.


(** ** The handler of the Solve button *)

(** X10: pressing Solve on a 9x9 grid without conflict whose cells hold
    0 to 9 always gives an outcome: either the success message, with
    the session grid replaced by a solution of the grid, or the error
    message, with the session grid unchanged, and then the grid has no
    solution. *)
Theorem solve_button_spec board :
  is_9x9 board → in_range board → conflict_free board →
  ∃ board' ok,
    solve_button board = Some (board', ok) ∧
    if ok : bool then solution_of board board'
    else board' = board ∧ ∀ sol, ¬ solution_of board sol.
Proof.
  intros H9 Hrange Hfree. unfold solve_button.
  destruct (solve_result board H9) as ([[ok b'] w'] & -> & Hpost & Hnone).
  destruct ok.
  - exists b', true. split; [done|].
    destruct Hpost as (H9' & _ & Hfull & Hsame & Hcf & Hrg).
    split_and!; [done| |by apply keeps_givens_result].
    apply full_conflict_free_solved; auto.
  - exists board, false. split; [done|]. split; [done|]. by apply Hnone.
Qed.

Lemma solve_button_spec_witness :
  is_9x9 test_board ∧ in_range test_board ∧ conflict_free test_board ∧
  ∃ board' ok,
    solve_button test_board = Some (board', ok) ∧
    if ok : bool then solution_of test_board board'
    else board' = test_board ∧ ∀ sol, ¬ solution_of test_board sol.
Proof.
  assert (is_9x9 test_board) as H9 by (by apply is_9x9_check).
  assert (in_range test_board) as Hrange by (by apply in_range_check).
  assert (conflict_free test_board) as Hfree
    by (apply conflict_free_check; apply (bool_decide_unpack _); by vm_compute).
  split; [exact H9|]. split; [exact Hrange|]. split; [exact Hfree|].
  exact (solve_button_spec test_board H9 Hrange Hfree).
Defined.

(** * The text parser *)

(** ** Shape of the grid *)

Lemma parse_row_length r : length (parse_row r) = 9%nat.
Proof.
  unfold parse_row, pad_row. destruct (is_compact _) eqn:Hc.
  - rewrite length_fmap. unfold is_compact in Hc.
    apply andb_true_iff in Hc as [Hlen _]. by apply Nat.eqb_eq in Hlen.
  - rewrite length_take, length_app, length_replicate. lia.
Qed.

Lemma pad_grid_9x9 grid :
  Forall (λ r, length r = 9%nat) grid → is_9x9 (pad_grid grid).
Proof.
  intros Hrows. unfold pad_grid. split.
  - rewrite length_take, length_app, length_replicate. lia.
  - apply Forall_take, Forall_app. split; [done|].
    apply Forall_replicate. by rewrite length_replicate.
Qed.

Lemma parse_rows_lengths lines :
  Forall (λ r, length r = 9%nat) (parse_rows lines).
Proof.
  unfold parse_rows. apply Forall_fmap, Forall_forall.
  intros r _. apply parse_row_length.
Qed.

(** ** Numbers *)

Lemma is_digit_value c : is_digit c = true → 0 ≤ digit_value c ≤ 9.
Proof.
  unfold is_digit, digit_value.
  intros [?%Nat.leb_le ?%Nat.leb_le]%andb_true_iff. lia.
Qed.

Lemma int_of_digits_bound ds :
  Forall (λ c, is_digit c = true) ds →
  0 ≤ int_of_digits ds < 10 ^ Z.of_nat (length ds).
Proof.
  unfold int_of_digits. intros Hds.
  assert (∀ acc, 0 ≤ acc →
            0 ≤ foldl (λ acc c, 10 * acc + digit_value c) acc ds
              < (acc + 1) * 10 ^ Z.of_nat (length ds)) as Hgen.
  { induction Hds as [|c ds Hc Hds IH]; intros acc Hacc; simpl.
    - lia.
    - apply is_digit_value in Hc.
      specialize (IH (10 * acc + digit_value c) ltac:(lia)).
      rewrite Nat2Z.inj_succ, Z.pow_succ_r by lia.
      assert (0 < 10 ^ Z.of_nat (length ds)) by (apply Z.pow_pos_nonneg; lia).
      nia. }
  specialize (Hgen 0 ltac:(lia)). lia.
Qed.

Lemma take_while_Forall {A} (f : A → bool) l :
  Forall (λ x, f x = true) (take_while f l).
Proof.
  induction l as [|x l IH]; simpl; [constructor|].
  destruct (f x) eqn:Hx; by constructor.
Qed.

Lemma take_drop_while {A} (f : A → bool) l :
  take_while f l ++ drop_while f l = l.
Proof.
  induction l as [|x l IH]; simpl; [done|].
  destruct (f x); simpl; [by rewrite IH|done].
Qed.

(** ** Blocks of consecutive characters *)

Lemma is_infix_refl {A} (l : list A) : is_infix l l.
Proof. exists [], []. by rewrite app_nil_r. Qed.

Lemma is_infix_trans {A} (l1 l2 l3 : list A) :
  is_infix l1 l2 → is_infix l2 l3 → is_infix l1 l3.
Proof.
  intros (a & b & ->) (c & d & ->). exists (c ++ a), (b ++ d).
  by rewrite <- !app_assoc.
Qed.

Lemma is_infix_app_l {A} (l k : list A) : is_infix l (l ++ k).
Proof. by exists [], k. Qed.

Lemma is_infix_app_r {A} (l k : list A) : is_infix l (k ++ l).
Proof. exists k, []. by rewrite app_nil_r. Qed.

Lemma is_infix_reverse {A} (l k : list A) :
  is_infix l k → is_infix (reverse l) (reverse k).
Proof.
  intros (a & b & ->). exists (reverse b), (reverse a).
  by rewrite !reverse_app, <- app_assoc.
Qed.

Lemma drop_while_infix {A} (f : A → bool) l : is_infix (drop_while f l) l.
Proof.
  rewrite <- (take_drop_while f l) at 2. apply is_infix_app_r.
Qed.

Lemma take_while_infix {A} (f : A → bool) l : is_infix (take_while f l) l.
Proof.
  rewrite <- (take_drop_while f l) at 2. apply is_infix_app_l.
Qed.

Lemma strip_infix s : is_infix (strip s) s.
Proof.
  unfold strip, rstrip, lstrip.
  eapply is_infix_trans; [|apply drop_while_infix].
  rewrite <- (reverse_involutive (drop_while is_space s)) at 2.
  apply is_infix_reverse, drop_while_infix.
Qed.

Lemma rstrip_chars_infix chars s : is_infix (rstrip_chars chars s) s.
Proof.
  unfold rstrip_chars. rewrite <- (reverse_involutive s) at 2.
  apply is_infix_reverse, drop_while_infix.
Qed.

Lemma split_from_infix sep : ∀ s cur p,
  p ∈ split_from sep cur s → is_infix p (cur ++ s).
Proof.
  induction s as [|c s IH]; intros cur p; simpl.
  - intros ->%list_elem_of_singleton. apply is_infix_app_l.
  - destruct (Ascii.eqb c sep).
    + intros [->|Hp]%elem_of_cons; [apply is_infix_app_l|].
      apply (IH [] p) in Hp. eapply is_infix_trans; [done|].
      exists (cur ++ [c]), []. by rewrite app_nil_r, <- app_assoc.
    + intros Hp%IH. by rewrite <- app_assoc in Hp.
Qed.

Lemma split_infix sep s p : p ∈ split sep s → is_infix p s.
Proof. apply (split_from_infix sep s []). Qed.

Lemma splitlines_from_infix : ∀ s cur p,
  p ∈ splitlines_from cur s → is_infix p (cur ++ s).
Proof.
  assert (∀ (c : ascii) s cur p,
            is_infix p s → is_infix p (cur ++ c :: s)) as Hskip.
  { intros c s cur p Hp. eapply is_infix_trans; [done|].
    exists (cur ++ [c]), []. by rewrite app_nil_r, <- app_assoc. }
  intros s. induction s as [s IH] using (induction_ltof1 _ length).
  unfold ltof in IH. intros cur p. destruct s as [|c s]; simpl.
  - destruct cur; [by intros ?%elem_of_nil|].
    intros ->%list_elem_of_singleton. rewrite app_nil_r. apply is_infix_refl.
  - destruct (is_linebreak c).
    + intros [->|Hp]%elem_of_cons; [apply is_infix_app_l|].
      apply Hskip. destruct s as [|c' s'].
      * by apply IH in Hp; [|simpl; lia].
      * destruct (Ascii.eqb c CR && Ascii.eqb c' LF).
        -- apply IH in Hp; [|simpl; lia]. by apply (Hskip c' s' []).
        -- by apply IH in Hp; [|simpl; lia].
    + intros Hp. apply IH in Hp; [|simpl; lia].
      by rewrite <- app_assoc in Hp.
Qed.

Lemma splitlines_infix s p : p ∈ splitlines s → is_infix p s.
Proof. apply (splitlines_from_infix s []). Qed.

(** ** Runs of digits *)

Lemma longest_run_mono s : ∀ cur best cur' best',
  (cur ≤ cur')%nat → (best ≤ best')%nat →
  (longest_run cur best s ≤ longest_run cur' best' s)%nat.
Proof.
  induction s as [|c s IH]; intros cur best cur' best' Hc Hb; simpl; [lia|].
  destruct (is_digit c); apply IH; lia.
Qed.

Lemma longest_run_ge s : ∀ cur best,
  (cur `max` best ≤ longest_run cur best s)%nat.
Proof.
  induction s as [|c s IH]; intros cur best; simpl; [lia|].
  destruct (is_digit c).
  - specialize (IH (S cur) best). lia.
  - specialize (IH 0%nat (cur `max` best)%nat). lia.
Qed.

Lemma longest_run_digits ds s : ∀ cur best,
  Forall (λ c, is_digit c = true) ds →
  (cur + length ds ≤ longest_run cur best (ds ++ s))%nat.
Proof.
  induction ds as [|c ds IH]; intros cur best Hds; simpl.
  - pose proof (longest_run_ge s cur best). lia.
  - apply Forall_cons_1 in Hds as [-> Hds].
    specialize (IH (S cur) best Hds). lia.
Qed.

Lemma longest_run_suffix l s : ∀ cur best,
  (longest_run 0 0 s ≤ longest_run cur best (l ++ s))%nat.
Proof.
  induction l as [|c l IH]; intros cur best; simpl.
  - apply longest_run_mono; lia.
  - destruct (is_digit c); apply IH.
Qed.

Lemma digits_infix_length ds t :
  Forall (λ c, is_digit c = true) ds → is_infix ds t →
  (length ds ≤ longest_digit_run t)%nat.
Proof.
  intros Hds (l1 & l2 & ->). unfold longest_digit_run.
  pose proof (longest_run_suffix l1 (ds ++ l2) 0 0).
  pose proof (longest_run_digits ds l2 0 0 Hds). lia.
Qed.

(** ** The numbers of the grid *)

Lemma search_digits_spec s ds :
  search_digits s = Some ds →
  Forall (λ c, is_digit c = true) ds ∧ is_infix ds s.
Proof.
  unfold search_digits.
  pose proof (drop_while_infix (λ c, negb (is_digit c)) s) as Hinf.
  destruct (drop_while _ s) as [|c s']; [done|]. intros [= <-]. split.
  - exact (take_while_Forall is_digit (c :: s')).
  - exact (is_infix_trans _ _ _ (take_while_infix is_digit (c :: s')) Hinf).
Qed.

Lemma parse_piece_bound sp :
  0 ≤ parse_piece sp < 10 ^ Z.of_nat (longest_digit_run sp).
Proof.
  assert (0 < 10 ^ Z.of_nat (longest_digit_run sp))
    by (apply Z.pow_pos_nonneg; lia).
  unfold parse_piece. destruct (strip sp) as [|c s'] eqn:Hstrip; [lia|].
  destruct (search_digits (c :: s')) as [ds|] eqn:Hds; [|lia].
  apply search_digits_spec in Hds as [Hdigits Hinf].
  pose proof (int_of_digits_bound ds Hdigits) as Hb.
  assert (length ds ≤ longest_digit_run sp)%nat as Hlen.
  { apply digits_infix_length; [done|].
    eapply is_infix_trans; [done|]. rewrite <- Hstrip. apply strip_infix. }
  assert (10 ^ Z.of_nat (length ds) ≤ 10 ^ Z.of_nat (longest_digit_run sp))
    by (apply Z.pow_le_mono_r; lia).
  lia.
Qed.

Lemma longest_digit_run_infix s t :
  is_infix s t → (longest_digit_run s ≤ longest_digit_run t)%nat.
Proof.
  intros (l1 & l2 & ->). unfold longest_digit_run.
  etrans; [|apply longest_run_suffix].
  revert l2. generalize 0%nat at 1 3. generalize 0%nat.
  induction s as [|c s IH]; intros best cur l2; simpl.
  - apply longest_run_ge.
  - destruct (is_digit c); apply IH.
Qed.

Lemma pow10_mono (n m : nat) : (n ≤ m)%nat → 10 ^ Z.of_nat n ≤ 10 ^ Z.of_nat m.
Proof. intros. apply Z.pow_le_mono_r; lia. Qed.

Lemma parse_row_bound r text :
  is_infix r text →
  Forall (λ v, 0 ≤ v < 10 ^ Z.of_nat (longest_digit_run text)) (parse_row r).
Proof.
  intros Hr. unfold parse_row, pad_row.
  pose proof (rstrip_chars_infix [CR; LF] r) as Hr'.
  set (r' := rstrip_chars [CR; LF] r) in *.
  assert (is_infix r' text) as Hr'' by (by eapply is_infix_trans).
  destruct (is_compact (strip r')) eqn:Hc.
  - unfold is_compact in Hc.
    apply andb_true_iff in Hc as [Hlen%Nat.eqb_eq Hds].
    assert (Forall (λ c, is_digit c = true) (strip r')) as Hdigits.
    { apply Forall_forall. intros c Hc%list_elem_of_In.
      by apply (proj1 (forallb_forall _ _) Hds). }
    assert (9 ≤ longest_digit_run text)%nat as Hrun.
    { rewrite <- Hlen. apply digits_infix_length; [done|].
      eapply is_infix_trans; [apply strip_infix|done]. }
    apply pow10_mono in Hrun. apply Forall_fmap.
    eapply Forall_impl; [exact Hdigits|]. intros c Hd. simpl.
    apply is_digit_value in Hd. unfold int_of_digits. simpl.
    change (10 ^ Z.of_nat 9) with 1000000000 in Hrun. lia.
  - assert (0 < 10 ^ Z.of_nat (longest_digit_run text))
      by (apply Z.pow_pos_nonneg; lia).
    apply Forall_take, Forall_app. split.
    + apply Forall_forall.
      intros v (part & (sp & -> & Hsp)%list_elem_of_fmap
                  & Hpart)%list_elem_of_bind.
      pose proof (parse_piece_bound sp) as Hb.
      assert (longest_digit_run sp ≤ longest_digit_run text)%nat as Hle.
      { apply longest_digit_run_infix.
        eapply is_infix_trans; [exact (split_infix SPACE _ _ Hsp)|].
        eapply is_infix_trans; [exact (split_infix TAB _ _ Hpart)|done]. }
      apply pow10_mono in Hle. lia.
    + apply Forall_replicate. lia.
Qed.

(** X11: [parse_sudoku_text] returns [None] exactly on the empty text,
    and every grid it returns has 9 rows of 9 cells, whatever the text
    holds (stated for the texts without ten digits in a row, on which
    the conversion to an integer array is the identity). *)
Theorem parse_shape text :
  (longest_digit_run text ≤ 9)%nat →
  (parse_sudoku_text text = None ↔ text = []) ∧
  ∀ grid, parse_sudoku_text text = Some grid → is_9x9 grid.
Proof.
  intros _. unfold parse_sudoku_text. destruct text as [|c text]; [done|].
  split; [done|]. intros grid [= <-].
  apply pad_grid_9x9, parse_rows_lengths.
Qed.

Lemma parse_shape_witness :
  (longest_digit_run pasted_example ≤ 9)%nat ∧
  (parse_sudoku_text pasted_example = None ↔ pasted_example = []) ∧
  ∀ grid, parse_sudoku_text pasted_example = Some grid → is_9x9 grid.
Proof.
  assert (longest_digit_run pasted_example ≤ 9)%nat as Hrun
    by (vm_compute; lia).
  split; [exact Hrun|]. exact (parse_shape pasted_example Hrun).
Defined.

(** X12: on a text without ten digits in a row, every cell of the
    grid returned by [parse_sudoku_text] is a non-negative integer
    below 10^9: a sign is dropped, and what is not a number reads 0. *)
Theorem parse_values text grid :
  (longest_digit_run text ≤ 9)%nat →
  parse_sudoku_text text = Some grid →
  Forall (Forall (λ v, 0 ≤ v < 10 ^ 9)) grid.
Proof.
  intros Hrun. unfold parse_sudoku_text.
  destruct text as [|c text]; [done|]. intros [= <-].
  set (t := c :: text) in *. apply pow10_mono in Hrun.
  assert (0 < 10 ^ Z.of_nat (longest_digit_run t))
    by (apply Z.pow_pos_nonneg; lia).
  apply Forall_take, Forall_app. split.
  - apply Forall_fmap, Forall_forall. intros r [_ Hr]%list_elem_of_filter.
    simpl. eapply Forall_impl; [by apply parse_row_bound, splitlines_infix|].
    simpl. intros v Hv.
    change (10 ^ Z.of_nat 9) with (10 ^ 9) in Hrun. lia.
  - apply Forall_replicate, Forall_replicate. lia.
Qed.

Lemma parse_values_witness :
  (longest_digit_run pasted_example ≤ 9)%nat ∧
  parse_sudoku_text pasted_example = Some parsed_example ∧
  Forall (Forall (λ v, 0 ≤ v < 10 ^ 9)) parsed_example.
Proof.
  assert (longest_digit_run pasted_example ≤ 9)%nat as Hrun
    by (vm_compute; lia).
  assert (parse_sudoku_text pasted_example = Some parsed_example) as Hparse
    by (vm_compute; reflexivity).
  split; [exact Hrun|]. split; [exact Hparse|].
  exact (parse_values pasted_example parsed_example Hrun Hparse).
Defined.

(** ** Characters *)

Lemma digit_char_spec v :
  0 ≤ v ≤ 9 →
  is_digit (digit_char v) = true ∧ is_space (digit_char v) = false ∧
  is_linebreak (digit_char v) = false ∧
  Ascii.eqb (digit_char v) TAB = false ∧
  Ascii.eqb (digit_char v) SPACE = false ∧
  existsb (Ascii.eqb (digit_char v)) [CR; LF] = false ∧
  digit_value (digit_char v) = v.
Proof.
  intros Hv.
  assert (v = 0 ∨ v = 1 ∨ v = 2 ∨ v = 3 ∨ v = 4 ∨ v = 5 ∨ v = 6 ∨ v = 7
          ∨ v = 8 ∨ v = 9) as Hcases by lia.
  repeat (destruct Hcases as [->|Hcases]; [by vm_compute|]).
  subst v. by vm_compute.
Qed.

(** ** Stripping *)

Lemma drop_while_nil {A} (f : A → bool) l :
  drop_while f l = [] ↔ Forall (λ x, f x = true) l.
Proof.
  induction l as [|x l IH]; simpl; [by split; [constructor|]|].
  destruct (f x) eqn:Hx.
  - rewrite IH. split; [by constructor|]. by intros [_ ?]%Forall_cons_1.
  - split; [done|]. intros [? _]%Forall_cons_1. congruence.
Qed.

Lemma drop_while_id {A} (f : A → bool) l :
  Forall (λ x, f x = false) l → drop_while f l = l.
Proof. destruct 1 as [|x l Hx _]; simpl; [done|]. by rewrite Hx. Qed.

Lemma drop_while_Forall {A} (f : A → bool) l :
  Forall (λ x, f x = true) (drop_while f l) → Forall (λ x, f x = true) l.
Proof.
  induction l as [|x l IH]; simpl; [done|].
  destruct (f x) eqn:Hx; [|done]. intros ?%IH. by constructor.
Qed.

Lemma strip_nil s : strip s = [] ↔ Forall (λ c, is_space c = true) s.
Proof.
  unfold strip, rstrip, lstrip. split.
  - intros Hs. apply (f_equal reverse) in Hs.
    rewrite reverse_involutive, reverse_nil in Hs.
    apply drop_while_nil in Hs. rewrite Forall_reverse in Hs.
    by apply drop_while_Forall.
  - intros Hs. apply drop_while_nil in Hs. by rewrite Hs.
Qed.

Lemma strip_id s : Forall (λ c, is_space c = false) s → strip s = s.
Proof.
  intros Hs. unfold strip, rstrip, lstrip.
  rewrite (drop_while_id _ s Hs), drop_while_id, reverse_involutive;
    [done|by apply Forall_reverse].
Qed.

Lemma rstrip_chars_id chars s :
  Forall (λ c, existsb (Ascii.eqb c) chars = false) s →
  rstrip_chars chars s = s.
Proof.
  intros Hs. unfold rstrip_chars.
  rewrite drop_while_id, reverse_involutive; [done|by apply Forall_reverse].
Qed.

(** ** Splitting what was joined *)

Lemma split_from_no_sep sep s : ∀ cur,
  Forall (λ c, Ascii.eqb c sep = false) s →
  split_from sep cur s = [cur ++ s].
Proof.
  induction s as [|c s IH]; intros cur Hs; simpl.
  - by rewrite app_nil_r.
  - apply Forall_cons_1 in Hs as [-> Hs].
    by rewrite IH, <- app_assoc.
Qed.

Lemma split_from_app sep p s : ∀ cur,
  Forall (λ c, Ascii.eqb c sep = false) p →
  split_from sep cur (p ++ sep :: s) = (cur ++ p) :: split_from sep [] s.
Proof.
  induction p as [|c p IH]; intros cur Hp; simpl.
  - by rewrite Ascii.eqb_refl, app_nil_r.
  - apply Forall_cons_1 in Hp as [-> Hp].
    by rewrite IH, <- app_assoc.
Qed.

Lemma split_join sep pieces :
  pieces ≠ [] →
  Forall (Forall (λ c, Ascii.eqb c sep = false)) pieces →
  split sep (join [sep] pieces) = pieces.
Proof.
  unfold split. induction pieces as [|p ps IH]; intros Hne Hps; [done|].
  apply Forall_cons_1 in Hps as [Hp Hps]. destruct ps as [|p' ps].
  - simpl. by rewrite split_from_no_sep.
  - change (join [sep] (p :: p' :: ps))
      with (p ++ sep :: join [sep] (p' :: ps)).
    rewrite split_from_app by done. simpl app. f_equal. by apply IH.
Qed.

Lemma splitlines_from_app eol l s : ∀ cur,
  eol = [LF] ∨ eol = [CR; LF] →
  Forall (λ c, is_linebreak c = false) l →
  splitlines_from cur (l ++ eol ++ s) = (cur ++ l) :: splitlines_from [] s.
Proof.
  induction l as [|c l IH]; intros cur Heol Hl.
  - rewrite app_nil_r. destruct Heol as [->| ->]; [by destruct s|done].
  - apply Forall_cons_1 in Hl as [Hc Hl]. simpl. rewrite Hc.
    by rewrite IH, <- app_assoc.
Qed.

Lemma splitlines_from_no_break l : ∀ cur,
  Forall (λ c, is_linebreak c = false) l →
  splitlines_from cur l = match cur ++ l with [] => [] | _ :: _ => [cur ++ l] end.
Proof.
  induction l as [|c l IH]; intros cur Hl; simpl.
  - rewrite app_nil_r. by destruct cur.
  - apply Forall_cons_1 in Hl as [-> Hl]. by rewrite IH, <- app_assoc.
Qed.

Lemma splitlines_join eol lines :
  eol = [LF] ∨ eol = [CR; LF] →
  Forall (Forall (λ c, is_linebreak c = false)) lines →
  filter (λ r, strip r ≠ []) (splitlines (join eol lines))
  = filter (λ r, strip r ≠ []) lines.
Proof.
  intros Heol. unfold splitlines.
  induction lines as [|l ls IH]; intros Hls; [done|].
  apply Forall_cons_1 in Hls as [Hl Hls]. destruct ls as [|l' ls].
  - simpl join. rewrite splitlines_from_no_break by done. simpl app.
    destruct l; [|done]. rewrite filter_cons.
    case_decide as Hstrip; [|done]. by destruct Hstrip.
  - change (join eol (l :: l' :: ls)) with (l ++ eol ++ join eol (l' :: ls)).
    rewrite splitlines_from_app by done. simpl app.
    rewrite !(filter_cons _ l). rewrite IH by done. done.
Qed.

Lemma join_cons_nonempty eol l ls : l ≠ [] → join eol (l :: ls) ≠ [].
Proof. destruct l, ls; done. Qed.

Lemma parse_nonempty text :
  text ≠ [] →
  parse_sudoku_text text = Some (pad_grid (parse_rows (splitlines text))).
Proof. by destruct text. Qed.

Lemma pad_grid_id grid : length grid = 9%nat → pad_grid grid = grid.
Proof.
  intros Hlen. unfold pad_grid. rewrite Hlen. simpl.
  rewrite app_nil_r. apply take_ge. lia.
Qed.

Lemma parse_rows_lines (line : list Z → str) (out : list Z → list Z)
    (keep : list Z → Prop) `{∀ row, Decision (keep row)} rows :
  Forall (λ row, parse_row (line row) = out row ∧
                 (strip (line row) ≠ [] ↔ keep row)) rows →
  parse_rows (line <$> rows) = out <$> filter keep rows.
Proof.
  unfold parse_rows. induction 1 as [|row rows [Hrow Hkeep] _ IH]; [done|].
  rewrite fmap_cons, !filter_cons.
  destruct (decide (strip (line row) ≠ [])) as [Hs|Hs];
    destruct (decide (keep row)) as [Hk|Hk]; try tauto.
  by rewrite !fmap_cons, Hrow, IH.
Qed.

Lemma board_rows_digits board :
  is_9x9 board → in_range board →
  Forall (λ row, length row = 9%nat ∧ Forall (λ v, 0 ≤ v ≤ 9) row) board.
Proof.
  intros [Hlen Hrows] Hrange. apply Forall_lookup. intros i row Hi.
  rewrite Forall_lookup in Hrows. pose proof (Hrows i row Hi) as Hlr.
  split; [done|]. apply Forall_lookup. intros j v Hj.
  pose proof (lookup_lt_Some _ _ _ Hi). pose proof (lookup_lt_Some _ _ _ Hj).
  specialize (Hrange (i, j)). unfold board_get, in_grid in Hrange.
  cbn [fst snd] in Hrange.
  rewrite (list_lookup_total_correct board i row Hi),
    (list_lookup_total_correct row j v Hj) in Hrange.
  apply Hrange. lia.
Qed.

(** ** Rows written as text *)

Lemma elem_of_join sep ps (c : ascii) :
  c ∈ join sep ps ↔ (c ∈ sep ∧ (2 ≤ length ps)%nat) ∨ ∃ p, p ∈ ps ∧ c ∈ p.
Proof.
  induction ps as [|p ps IH].
  - simpl. split; [by intros ?%elem_of_nil|].
    intros [[_ ?]|(p & ?%elem_of_nil & _)]; [lia|done].
  - destruct ps as [|p' ps].
    + simpl. split.
      * intros Hc. right. exists p. split; [apply elem_of_cons; auto|done].
      * intros [[_ ?]|(q & ->%list_elem_of_singleton & Hc)]; [simpl in *; lia|done].
    + change (join sep (p :: p' :: ps)) with (p ++ sep ++ join sep (p' :: ps)).
      rewrite !elem_of_app, IH. split.
      * intros [Hc|[Hc|[[Hc _]|(q & Hq & Hc)]]].
        -- right. exists p. split; [apply elem_of_cons; auto|done].
        -- left. split; [done|simpl; lia].
        -- left. split; [done|simpl; lia].
        -- right. exists q. split; [apply elem_of_cons; auto|done].
      * intros [[Hc _]|(q & [->|Hq]%elem_of_cons & Hc)]; eauto 6.
Qed.

Lemma forallb_Forall {A} (f : A → bool) l :
  Forall (λ x, f x = true) l → forallb f l = true.
Proof. induction 1 as [|x l Hx _ IH]; simpl; [done|]. by rewrite Hx, IH. Qed.

Lemma Forall_forallb {A} (f : A → bool) l :
  forallb f l = true → Forall (λ x, f x = true) l.
Proof.
  induction l as [|x l IH]; simpl; [constructor|].
  intros [? ?]%andb_true_iff. constructor; auto.
Qed.

Lemma parse_row_compact row :
  length row = 9%nat → Forall (λ v, 0 ≤ v ≤ 9) row →
  parse_row (compact_line row) = row ∧ strip (compact_line row) ≠ [] ∧
  Forall (λ c, is_linebreak c = false) (compact_line row).
Proof.
  intros Hlen Hrow. unfold compact_line.
  assert (∀ P : ascii → Prop,
            (∀ v, 0 ≤ v ≤ 9 → P (digit_char v)) →
            Forall P (digit_char <$> row)) as Hchars.
  { intros P HP. apply Forall_fmap. eapply Forall_impl; [done|]. auto. }
  assert (strip (digit_char <$> row) = digit_char <$> row) as Hstrip.
  { apply strip_id, Hchars. intros v Hv. by apply digit_char_spec. }
  split_and!.
  - unfold parse_row. rewrite rstrip_chars_id, Hstrip.
    + assert (is_compact (digit_char <$> row) = true) as ->.
      { unfold is_compact. rewrite length_fmap, Hlen. simpl.
        apply forallb_Forall, Hchars. intros v Hv. by apply digit_char_spec. }
      clear Hlen Hchars Hstrip.
      induction Hrow as [|v row Hv _ IH]; [done|].
      rewrite !fmap_cons, IH. f_equal. unfold int_of_digits. simpl.
      apply digit_char_spec in Hv. lia.
    + apply Hchars. intros v Hv. by apply digit_char_spec.
  - rewrite Hstrip. by destruct row.
  - apply Hchars. intros v Hv. by apply digit_char_spec.
Qed.

Lemma cell_text_cases blank v :
  0 ≤ v ≤ 9 →
  (cell_text blank v = [] ∧ blank = true ∧ v = 0) ∨
  (cell_text blank v = [digit_char v] ∧ (blank = false ∨ v ≠ 0)).
Proof.
  intros Hv. unfold cell_text. destruct blank; simpl.
  - destruct (Z.eqb_spec v 0); [left|right]; auto.
  - right. auto.
Qed.

Lemma parse_piece_cell blank v :
  0 ≤ v ≤ 9 → parse_piece (cell_text blank v) = v.
Proof.
  intros Hv. destruct (cell_text_cases blank v Hv) as [(-> & _ & ->)|[-> _]].
  - done.
  - pose proof (digit_char_spec v Hv) as (Hd & Hs & _ & _ & _ & _ & Hval).
    unfold parse_piece. rewrite strip_id by (by repeat constructor).
    unfold search_digits. cbn [drop_while take_while]. rewrite Hd.
    cbn [negb]. rewrite Hd. unfold int_of_digits. cbn [take_while foldl]. lia.
Qed.

Lemma longest_run_cells sep cells :
  is_digit sep = false →
  Forall (λ p, length p ≤ 1)%nat cells →
  ∀ cur best,
    (longest_run cur best (join [sep] cells)
     ≤ Nat.max (S cur) (Nat.max best 1))%nat.
Proof.
  intros Hsep. induction cells as [|p ps IH]; intros Hps cur best.
  { cbn [join longest_run]. lia. }
  apply Forall_cons_1 in Hps as [Hp Hps]. specialize (IH Hps).
  destruct ps as [|p' ps].
  - destruct p as [|d [|]]; cbn [join longest_run length] in *; [lia| |lia].
    destruct (is_digit d); cbn [longest_run]; lia.
  - change (join [sep] (p :: p' :: ps))
      with (p ++ sep :: join [sep] (p' :: ps)).
    destruct p as [|d [|]]; cbn [length] in Hp; [| |lia].
    + cbn [app longest_run]. rewrite Hsep.
      specialize (IH 0%nat (Nat.max cur best)). lia.
    + cbn [app longest_run]. rewrite Hsep. destruct (is_digit d).
      * specialize (IH 0%nat (Nat.max (S cur) best)). lia.
      * specialize (IH 0%nat (Nat.max 0 (Nat.max cur best))). lia.
Qed.

Lemma separator_spec sep :
  sep = TAB ∨ sep = SPACE →
  is_digit sep = false ∧ is_space sep = true ∧ is_linebreak sep = false ∧
  existsb (Ascii.eqb sep) [CR; LF] = false.
Proof. by intros [-> | ->]. Qed.

Lemma cell_text_chars blank v c :
  0 ≤ v ≤ 9 → c ∈ cell_text blank v → c = digit_char v.
Proof.
  intros Hv. destruct (cell_text_cases blank v Hv) as [(-> & _)|[-> _]].
  - by intros ?%elem_of_nil.
  - by intros ->%list_elem_of_singleton.
Qed.

Lemma delimited_line_chars sep blank row c :
  Forall (λ v, 0 ≤ v ≤ 9) row → c ∈ delimited_line sep blank row →
  c = sep ∨ ∃ v, 0 ≤ v ≤ 9 ∧ c = digit_char v.
Proof.
  intros Hrow [[Hc%list_elem_of_singleton _]|(p & Hp & Hc)]%elem_of_join;
    [by left|right].
  apply list_elem_of_fmap in Hp as (v & -> & Hv).
  rewrite Forall_forall in Hrow. exists v. split; [by apply Hrow|].
  by eapply cell_text_chars; [apply Hrow|].
Qed.

Lemma pieces_of_cells blank row :
  Forall (λ v, 0 ≤ v ≤ 9) row →
  (cell_text blank <$> row) ≫= (λ part, parse_piece <$> split SPACE part)
  = row.
Proof.
  induction 1 as [|v row Hv _ IH]; [done|].
  rewrite fmap_cons, bind_cons, IH. unfold split.
  rewrite split_from_no_sep.
  - rewrite app_nil_l, list_fmap_singleton, parse_piece_cell by done. done.
  - apply Forall_forall. intros c ->%(cell_text_chars blank v); [|done].
    by apply digit_char_spec.
Qed.

Lemma delimited_line_blank sep blank row :
  is_space sep = true → row ≠ [] → Forall (λ v, 0 ≤ v ≤ 9) row →
  Forall (λ c, is_space c = true) (delimited_line sep blank row)
  ↔ blank = true ∧ Forall (λ v, v = 0) row.
Proof.
  intros Hsep Hne Hrow. rewrite Forall_forall in Hrow.
  assert (∀ v, v ∈ row → (blank = false ∨ v ≠ 0) →
            digit_char v ∈ delimited_line sep blank row) as Hin.
  { intros v Hv Hcase. apply elem_of_join. right. exists [digit_char v].
    split; [|by apply list_elem_of_singleton].
    apply list_elem_of_fmap. exists v. split; [|done].
    destruct (cell_text_cases blank v (Hrow v Hv)) as [(_ & -> & ->)|[-> _]];
      [by destruct Hcase|done]. }
  assert (∀ v, v ∈ row → (blank = false ∨ v ≠ 0) →
            ¬ Forall (λ c, is_space c = true) (delimited_line sep blank row))
    as Hnot.
  { intros v Hv Hcase Hall. rewrite Forall_forall in Hall.
    specialize (Hall _ (Hin v Hv Hcase)).
    destruct (digit_char_spec v (Hrow v Hv)) as (_ & Hsp & _). congruence. }
  split.
  - intros Hall. split.
    + destruct blank; [done|]. destruct row as [|v row]; [done|].
      destruct (Hnot v); [left|by left|done].
    + apply Forall_forall. intros v Hv. destruct (decide (v = 0)); [done|].
      destruct (Hnot v); [done|by right|done].
  - intros [-> Hzero]. rewrite Forall_forall in Hzero. apply Forall_forall.
    intros c [[Hc%list_elem_of_singleton _]|(p & Hp & Hc)]%elem_of_join;
      [by subst|].
    apply list_elem_of_fmap in Hp as (v & -> & Hv).
    rewrite (Hzero v Hv) in Hc. by apply elem_of_nil in Hc.
Qed.

Lemma pad_row_id row : length row = 9%nat → pad_row row = row.
Proof.
  intros Hlen. unfold pad_row. rewrite Hlen. simpl. rewrite app_nil_r.
  apply take_ge. lia.
Qed.

Lemma delimited_line_nonempty sep blank row :
  (2 ≤ length row)%nat → delimited_line sep blank row ≠ [].
Proof.
  intros Hlen Hnil.
  assert (sep ∈ delimited_line sep blank row) as Hin.
  { apply elem_of_join. left. split; [by apply list_elem_of_singleton|].
    by rewrite length_fmap. }
  rewrite Hnil in Hin. by apply elem_of_nil in Hin.
Qed.

Lemma parse_row_delimited sep blank row :
  sep = TAB ∨ sep = SPACE →
  row ≠ [] → Forall (λ v, 0 ≤ v ≤ 9) row →
  parse_row (delimited_line sep blank row) = pad_row row ∧
  (strip (delimited_line sep blank row) ≠ [] ↔
     blank = false ∨ ¬ Forall (λ v, v = 0) row) ∧
  Forall (λ c, is_linebreak c = false) (delimited_line sep blank row).
Proof.
  intros Hsep Hne Hrow.
  pose proof (separator_spec sep Hsep) as (Hsd & Hss & Hsl & Hsc).
  set (line := delimited_line sep blank row).
  assert (∀ P : ascii → Prop, P sep →
            (∀ v, 0 ≤ v ≤ 9 → P (digit_char v)) → Forall P line) as Hchars.
  { intros P Hps Hpd. apply Forall_forall. intros c Hc.
    by destruct (delimited_line_chars sep blank row c Hrow Hc)
      as [->|(v & Hv & ->)]; auto. }
  assert (Forall (λ p, length p ≤ 1)%nat (cell_text blank <$> row)) as Hcells.
  { apply Forall_fmap, Forall_forall. intros v _. unfold cell_text. simpl.
    destruct (blank && (v =? 0)); simpl; lia. }
  assert (is_compact (strip line) = false) as Hcompact.
  { destruct (is_compact (strip line)) eqn:Hc; [|done]. exfalso.
    unfold is_compact in Hc.
    apply andb_true_iff in Hc as [Hl%Nat.eqb_eq Hds%Forall_forallb].
    pose proof (digits_infix_length _ line Hds (strip_infix line)) as Hrun.
    pose proof (longest_run_cells sep _ Hsd Hcells 0 0) as Hmax.
    fold (delimited_line sep blank row) in Hmax. fold line in Hmax.
    unfold longest_digit_run in Hrun. lia. }
  split_and!.
  - unfold parse_row. fold line. rewrite rstrip_chars_id, Hcompact.
    2:{ apply Hchars; [done|]. intros v Hv. by apply digit_char_spec. }
    assert (split TAB line ≫= (λ part, parse_piece <$> split SPACE part)
            = row) as ->.
    { destruct Hsep as [-> | ->].
      - unfold line, delimited_line. rewrite split_join.
        + by apply pieces_of_cells.
        + by destruct row.
        + apply Forall_fmap, Forall_forall. intros v Hv. simpl.
          rewrite Forall_forall in Hrow. apply Forall_forall.
          intros c ->%(cell_text_chars blank v); [|by apply Hrow].
          by apply digit_char_spec, Hrow.
      - change (split TAB line) with (split_from TAB [] line).
        rewrite split_from_no_sep.
        2:{ apply Hchars; [done|]. intros v Hv. by apply digit_char_spec. }
        rewrite app_nil_l, bind_singleton.
        unfold line, delimited_line. rewrite split_join.
        + clear -Hrow. induction Hrow as [|v row Hv _ IH]; [done|].
          rewrite !fmap_cons, IH. f_equal. by apply parse_piece_cell.
        + by destruct row.
        + apply Forall_fmap, Forall_forall. intros v Hv. simpl.
          rewrite Forall_forall in Hrow. apply Forall_forall.
          intros c ->%(cell_text_chars blank v); [|by apply Hrow].
          by apply digit_char_spec, Hrow. }
    done.
  - rewrite strip_nil. unfold line.
    rewrite (delimited_line_blank sep blank row Hss); [|done|done].
    destruct blank; [|by split; [left|intros _ [? _]]].
    split; [intros Hn; right; intros Hz; by apply Hn|].
    by intros [?|Hn] [_ Hz].
  - apply Hchars; [done|]. intros v Hv. by apply digit_char_spec.
Qed.

(** ** Parsing the text of a grid *)

Lemma join_snoc_nil eol lines :
  lines ≠ [] → join eol (lines ++ [[]]) = join eol lines ++ eol.
Proof.
  induction lines as [|l ls IH]; [done|]. intros _.
  destruct ls as [|l' ls]; [simpl; by rewrite app_nil_r|].
  change (l ++ eol ++ join eol ((l' :: ls) ++ [[]])
          = (l ++ eol ++ join eol (l' :: ls)) ++ eol).
  rewrite IH by done. by rewrite <- !app_assoc.
Qed.

Lemma parse_lines eol final (line : list Z → str) (out : list Z → list Z)
    (keep : list Z → Prop) `{∀ row, Decision (keep row)} rows :
  eol = [LF] ∨ eol = [CR; LF] → rows ≠ [] →
  Forall (λ row, parse_row (line row) = out row ∧
                 (strip (line row) ≠ [] ↔ keep row) ∧
                 Forall (λ c, is_linebreak c = false) (line row) ∧
                 line row ≠ []) rows →
  parse_sudoku_text (grid_text eol final (line <$> rows))
  = Some (pad_grid (out <$> filter keep rows)).
Proof.
  intros Heol Hne Hrows.
  assert (Forall (Forall (λ c, is_linebreak c = false)) (line <$> rows))
    as Hlb.
  { apply Forall_fmap. eapply Forall_impl; [exact Hrows|]. by intros ? (_&_&?&_). }
  assert (Forall (λ row, parse_row (line row) = out row ∧
                 (strip (line row) ≠ [] ↔ keep row)) rows) as Hrows'.
  { eapply Forall_impl; [exact Hrows|]. by intros ? (?&?&_). }
  assert (grid_text eol final (line <$> rows) ≠ []) as Htext.
  { unfold grid_text. destruct final.
    - intros [_ ->]%app_eq_nil. by destruct Heol.
    - rewrite app_nil_r. destruct rows as [|row rows]; [done|].
      apply Forall_inv in Hrows as (_ & _ & _ & Hl).
      rewrite fmap_cons. apply join_cons_nonempty, Hl. }
  rewrite parse_nonempty by done. do 2 f_equal.
  unfold parse_rows.
  assert (filter (λ r, strip r ≠ []) (splitlines (grid_text eol final (line <$> rows)))
          = filter (λ r, strip r ≠ []) (line <$> rows)) as ->.
  { unfold grid_text. destruct final.
    - rewrite <- join_snoc_nil by by destruct rows.
      rewrite splitlines_join; [|done|].
      + rewrite filter_app. simpl. by rewrite app_nil_r.
      + apply Forall_app. split; [done|]. by repeat constructor.
    - rewrite app_nil_r. by apply splitlines_join. }
  by apply parse_rows_lines.
Qed.

Lemma filter_Forall_id {A} (P : A → Prop) `{∀ x, Decision (P x)} l :
  Forall P l → filter P l = l.
Proof.
  induction 1 as [|x l Hx _ IH]; [done|].
  rewrite filter_cons_True by done. by f_equal.
Qed.

(** X13: a 9x9 grid with cells from 0 to 9, written one row per line as
    9 digits, the lines separated by LF or CR LF, with or without a
    line ending after the last row, is read back by
    [parse_sudoku_text] as the same grid. *)
Theorem parse_compact_roundtrip board eol final :
  is_9x9 board → in_range board → eol = [LF] ∨ eol = [CR; LF] →
  parse_sudoku_text (grid_text eol final (compact_line <$> board))
  = Some board.
Proof.
  intros H9 Hrange Heol.
  rewrite (parse_lines eol final compact_line id (λ _, True)); [|done| |].
  - rewrite list_fmap_id, filter_Forall_id by (by apply Forall_true). f_equal.
    apply pad_grid_id, H9.
  - destruct H9 as [Hlen _]. by destruct board.
  - eapply Forall_impl; [exact (board_rows_digits board H9 Hrange)|].
    intros row [Hlen Hrow]. simpl.
    destruct (parse_row_compact row Hlen Hrow) as (Hp & Hs & Hlb).
    split_and!; [done|done|done|]. by destruct row.
Qed.

Lemma parse_compact_roundtrip_witness :
  is_9x9 test_board ∧ in_range test_board ∧
  parse_sudoku_text (grid_text [CR; LF] true (compact_line <$> test_board))
  = Some test_board.
Proof.
  assert (is_9x9 test_board) as H9 by (by apply is_9x9_check).
  assert (in_range test_board) as Hrange by (by apply in_range_check).
  split; [exact H9|]. split; [exact Hrange|].
  apply (parse_compact_roundtrip test_board [CR; LF] true H9 Hrange).
  right. reflexivity.
Defined.

(** X14: a 9x9 grid with cells from 0 to 9, written one row per line
    with every cell as its digit (0 for an empty cell) and the cells
    separated by one tab or by one space, is read back by
    [parse_sudoku_text] as the same grid. *)
Theorem parse_delimited_roundtrip board sep eol final :
  is_9x9 board → in_range board →
  sep = TAB ∨ sep = SPACE → eol = [LF] ∨ eol = [CR; LF] →
  parse_sudoku_text (grid_text eol final (delimited_line sep false <$> board))
  = Some board.
Proof.
  intros H9 Hrange Hsep Heol.
  rewrite (parse_lines eol final (delimited_line sep false) id (λ _, True));
    [|done| |].
  - rewrite list_fmap_id, filter_Forall_id by (by apply Forall_true). f_equal.
    apply pad_grid_id, H9.
  - destruct H9 as [Hlen _]. by destruct board.
  - eapply Forall_impl; [exact (board_rows_digits board H9 Hrange)|].
    intros row [Hlen Hrow]. simpl.
    destruct (parse_row_delimited sep false row Hsep) as (Hp & Hs & Hlb);
      [by destruct row|done|].
    split_and!; [by rewrite Hp, pad_row_id|by rewrite Hs; split; auto|done|].
    apply delimited_line_nonempty. lia.
Qed.

Lemma parse_delimited_roundtrip_witness :
  is_9x9 test_board ∧ in_range test_board ∧
  parse_sudoku_text (grid_text [LF] false (delimited_line TAB false <$> test_board))
  = Some test_board.
Proof.
  assert (is_9x9 test_board) as H9 by (by apply is_9x9_check).
  assert (in_range test_board) as Hrange by (by apply in_range_check).
  split; [exact H9|]. split; [exact Hrange|].
  apply (parse_delimited_roundtrip test_board TAB [LF] false H9 Hrange);
    left; reflexivity.
Defined.

(** X15: rows of any number of cells (two at least) from 0 to 9,
    written one row per line with the cells separated by one tab or
    one space, an empty cell being written 0 or left blank.  The rows
    written with no character but separators are skipped, so that the
    rows below them move up; each row read is cut to its first 9 cells
    or filled with empty cells up to 9, and the grid is cut to its
    first 9 rows or filled with empty rows up to 9. *)
Theorem parse_delimited_rows rows sep blank eol final :
  rows ≠ [] →
  Forall (λ row, (2 ≤ length row)%nat ∧ Forall (λ v, 0 ≤ v ≤ 9) row) rows →
  sep = TAB ∨ sep = SPACE → eol = [LF] ∨ eol = [CR; LF] →
  parse_sudoku_text (grid_text eol final (delimited_line sep blank <$> rows))
  = Some (pad_grid
            (pad_row <$> filter (λ row, blank = false ∨ ¬ blank_row row) rows)).
Proof.
  intros Hne Hrows Hsep Heol.
  apply (parse_lines eol final (delimited_line sep blank) pad_row
           (λ row, blank = false ∨ ¬ blank_row row)); [done|done|].
  eapply Forall_impl; [exact Hrows|]. intros row [Hlen Hrow]. simpl.
  destruct (parse_row_delimited sep blank row Hsep) as (Hp & Hs & Hlb);
    [intros ->; simpl in Hlen; lia|done|].
  split_and!; [done|done|done|]. by apply delimited_line_nonempty.
Qed.

Lemma parse_delimited_rows_witness :
  parse_sudoku_text
    (grid_text [LF] true (delimited_line TAB true <$> [[0; 0; 0]; [1; 2; 3]]))
  = Some (pad_grid
            (pad_row <$> filter (λ row, true = false ∨ ¬ blank_row row)
                           [[0; 0; 0]; [1; 2; 3]])).
Proof.
  apply (parse_delimited_rows [[0; 0; 0]; [1; 2; 3]] TAB true [LF] true).
  - discriminate.
  - apply (bool_decide_unpack _). vm_compute. reflexivity.
  - left. reflexivity.
  - left. reflexivity.
Defined.

(** The row of blank cells is skipped and the row below it becomes the
    first row of the grid. *)
Example parse_blank_row_moves_up :
  parse_sudoku_text
    (grid_text [LF] true (delimited_line TAB true <$> [[0; 0; 0]; [1; 2; 3]]))
  = Some ([1; 2; 3; 0; 0; 0; 0; 0; 0] :: replicate 8 (replicate 9 0)).
Proof. vm_compute. reflexivity. Qed.

Example parse_pasted_example :
  parse_sudoku_text pasted_example = Some parsed_example.
Proof. vm_compute. reflexivity. Qed.

(** ** From the pasted text to the solved grid *)

(** X16: on a text that is not empty and has no ten digits in a row,
    the parser returns a grid and the Solve button then always gives an
    outcome on it: a 9x9 grid that keeps the numbers read from the
    text, without empty cell when the solver succeeds, and the grid
    read from the text itself, which then has no solution, when it
    fails. *)
Theorem paste_then_solve text :
  text ≠ [] → (longest_digit_run text ≤ 9)%nat →
  ∃ board board' ok,
    parse_sudoku_text text = Some board ∧
    solve_button board = Some (board', ok) ∧
    is_9x9 board' ∧ keeps_givens board board' ∧
    if ok : bool then full board'
    else board' = board ∧ ∀ sol, ¬ solution_of board sol.
Proof.
  intros Hne _. rewrite parse_nonempty by done.
  set (board := pad_grid _).
  assert (is_9x9 board) as H9 by apply pad_grid_9x9, parse_rows_lengths.
  destruct (solve_result board H9) as ([[ok b'] w'] & Hr & Hpost & Hnone).
  exists board. destruct ok.
  - exists b', true. split; [done|].
    split; [unfold solve_button; by rewrite Hr|].
    destruct Hpost as (H9' & _ & Hfull & Hsame & _).
    split_and!; [done|by apply keeps_givens_result|done].
  - exists board, false. split; [done|].
    split; [unfold solve_button; by rewrite Hr|].
    split_and!; [done|by intros pos _|done|by apply Hnone].
Qed.

Lemma paste_then_solve_witness :
  pasted_example ≠ [] ∧ (longest_digit_run pasted_example ≤ 9)%nat ∧
  ∃ board board' ok,
    parse_sudoku_text pasted_example = Some board ∧
    solve_button board = Some (board', ok) ∧
    is_9x9 board' ∧ keeps_givens board board' ∧
    if ok : bool then full board'
    else board' = board ∧ ∀ sol, ¬ solution_of board sol.
Proof.
  assert (pasted_example ≠ []) as Hne by discriminate.
  assert (longest_digit_run pasted_example ≤ 9)%nat as Hrun
    by (vm_compute; lia).
  split; [exact Hne|]. split; [exact Hrun|].
  exact (paste_then_solve pasted_example Hne Hrun).
Defined.
